(** * AutoMedia Agent: script parser, batch generation controller and
      timeline normalisation

    A shallow embedding of the pure and stateful logic of [App.tsx]
    ([sanitizeFilename], [handleTxtUpload], [processBatch], [handleSync])
    together with the records of [types.ts].

    Modelling conventions.
    - A JavaScript string is a [string] whose characters are the code units
      U+0000..U+00FF; [toLowerCase] and [trim] are written out for that range.
    - React state is the record [AppState]; a handler produces the ordered
      list of [Effect]s it performs (state setters, calls to the image
      service, timer waits) and the state after the handler is obtained by
      replaying them with [apply_effects].
    - The image service is an oracle [nat -> GenResult] giving the outcome of
      the n-th call made during a run; the wall clock is [nat -> string].
    - Seconds on the timeline are exact rationals ([Q]); IEEE-754 rounding of
      the JavaScript [number] type is outside the model. *)

From Stdlib Require Import QArith Lqa Ascii String DecimalString DecimalNat Lia.
From stdpp Require Import base list strings.

Local Open Scope string_scope.
Local Open Scope nat_scope.

(** ** JavaScript string primitives used by the handlers *)

Module Js.

Definition code (c : ascii) : nat := nat_of_ascii c.

(** [WhiteSpace] and [LineTerminator] code units below U+0100:
    TAB, LF, VT, FF, CR, SP and NBSP. *)
Definition isWhiteSpace (c : ascii) : bool :=
  let n := code c in
  ((9 <=? n) && (n <=? 13)) || (n =? 32) || (n =? 160).

(** [String.prototype.toLowerCase], one code unit at a time: A-Z, and the
    Latin-1 capitals U+00C0..U+00DE except the multiplication sign. *)
Definition lowerChar (c : ascii) : ascii :=
  let n := code c in
  if ((65 <=? n) && (n <=? 90))
     || ((192 <=? n) && (n <=? 222) && negb (n =? 215))
  then ascii_of_nat (n + 32) else c.

Fixpoint mapChars (f : ascii -> ascii) (s : string) : string :=
  match s with
  | EmptyString => EmptyString
  | String c s' => String (f c) (mapChars f s')
  end.

Definition toLowerCase (s : string) : string := mapChars lowerChar s.

(** [s.slice(0, n)] *)
Fixpoint slice0 (n : nat) (s : string) : string :=
  match n, s with
  | S n', String c s' => String c (slice0 n' s')
  | _, _ => EmptyString
  end.

(** [s.substring(n)] *)
Fixpoint substringFrom (n : nat) (s : string) : string :=
  match n, s with
  | S n', String _ s' => substringFrom n' s'
  | _, _ => s
  end.

(** [s.indexOf(c)], with [None] for -1. *)
Fixpoint indexOf (c : ascii) (s : string) : option nat :=
  match s with
  | EmptyString => None
  | String d s' =>
      if Ascii.eqb d c then Some 0
      else match indexOf c s' with
           | Some i => Some (S i)
           | None => None
           end
  end.

Fixpoint trimStart (s : string) : string :=
  match s with
  | EmptyString => EmptyString
  | String c s' => if isWhiteSpace c then trimStart s' else s
  end.

Fixpoint trimEnd (s : string) : string :=
  match s with
  | EmptyString => EmptyString
  | String c s' =>
      match trimEnd s' with
      | EmptyString => if isWhiteSpace c then EmptyString else String c EmptyString
      | t => String c t
      end
  end.

Definition trim (s : string) : string := trimEnd (trimStart s).

(** [s.split(sep)] for a one-character separator: never the empty list. *)
Fixpoint split (sep : ascii) (s : string) : list string :=
  match s with
  | EmptyString => [EmptyString]
  | String c s' =>
      if Ascii.eqb c sep then EmptyString :: split sep s'
      else match split sep s' with
           | h :: t => String c h :: t
           | [] => [String c EmptyString]
           end
  end.

(** Template-literal rendering of a non-negative integer. *)
Definition showNat (n : nat) : string := NilEmpty.string_of_uint (Nat.to_uint n).

End Js.

(** ** types.ts *)

Inductive Status := pending | generating | completed | failed.

Definition Status_eqb (a b : Status) : bool :=
  match a, b with
  | pending, pending | generating, generating
  | completed, completed | failed, failed => true
  | _, _ => false
  end.

Record ScriptLine := mkScriptLine {
  id : string;
  originalText : string;
  spokenText : string;
  imagePrompt : string;
  status : Status;
  imageData : option string;
  imageFileName : option string;
  batchId : option nat;
  timestamp : option string;
  error : option string
}.

Record ApiKeySession := mkApiKeySession {
  key : string;
  limit : nat;
  used : nat;
  isValid : bool;
  sessionBatchId : nat
}.

Record TimelineEntry := mkTimelineEntry {
  entryId : string;
  scriptLineId : string;
  startTime : Q;
  endTime : Q;
  text : string;
  image : string
}.

Definition MIN_IMAGE_DURATION : Q := 8 # 10.

(** ** sanitizeFilename *)

Definition isLowerAlnum (c : ascii) : bool :=
  let n := Js.code c in
  ((97 <=? n) && (n <=? 122)) || ((48 <=? n) && (n <=? 57)).

(** [replace(/[^a-z0-9]/g, '_')]: the pattern matches one character, so with
    the [g] flag every such character is replaced on its own. *)
Definition replaceNonAlnum (c : ascii) : ascii :=
  if isLowerAlnum c then c else "_"%char.

Definition sanitizeFilename (text : string) : string :=
  Js.slice0 50 (Js.mapChars replaceNonAlnum (Js.toLowerCase text)).

(** The filename stored on a completed line (line 225). *)
Definition derivedFileName (spoken : string) : string :=
  sanitizeFilename spoken ++ ".png".



(** ** handleTxtUpload *)

Definition newline : ascii := ascii_of_nat 10.
Definition pipe : ascii := "|"%char.

Definition nonBlank (l : string) : bool := 0 <? String.length (Js.trim l).

Definition parseLine (idx : nat) (line : string) : ScriptLine :=
  let pipeIndex := Js.indexOf pipe line in
  let '(scriptPart, promptPart) :=
    match pipeIndex with
    | Some p => (Js.trim (Js.slice0 p line), Js.trim (Js.substringFrom (p + 1) line))
    | None => (Js.trim line, EmptyString)
    end in
  {| id := "line-" ++ Js.showNat idx;
     originalText := line;
     spokenText := scriptPart;
     imagePrompt := promptPart;
     status := pending;
     imageData := None;
     imageFileName := None;
     batchId := None;
     timestamp := None;
     error := None |}.

Definition scriptRows (text : string) : list string :=
  filter (fun l => Is_true (nonBlank l)) (Js.split newline text).

Definition parseScript (text : string) : list ScriptLine :=
  imap parseLine (scriptRows text).

(** ** The image service and the effects of a handler *)

(** Outcome of one [generateImageForLine] call: the payload, the
    distinguished [QuotaError], or any other error, each error carrying its
    [message]. *)
Inductive GenResult :=
| GenOk (base64 : string)
| GenQuotaError (message : string)
| GenError (message : string).

Inductive Effect :=
| SetIsProcessingBatch (b : bool)
| SetError (e : option string)
| AddLog (msg : string)
| SetScriptLines (ls : list ScriptLine)
| SetApiKeySession (s : ApiKeySession)
| SetKeyModalMessage (m : string)
| SetTempKey (k : string)
| SetShowKeyModal (b : bool)
| GenerateImageForLine (k : string) (lineIndex : nat)
| Backoff (ms : nat).

Record AppState := mkAppState {
  scriptLines : list ScriptLine;
  apiKeySession : option ApiKeySession;
  tempKey : string;
  showKeyModal : bool;
  keyModalMessage : string;
  appError : option string;
  isProcessingBatch : bool;
  logs : list string
}.

(** [addLog]: keep the last nine messages and append the new one. *)
Definition addLog (msg : string) (prev : list string) : list string :=
  drop (length prev - 9) prev ++ [msg].

Definition apply_effect (st : AppState) (e : Effect) : AppState :=
  match e with
  | SetIsProcessingBatch b =>
      mkAppState (scriptLines st) (apiKeySession st) (tempKey st) (showKeyModal st)
                 (keyModalMessage st) (appError st) b (logs st)
  | SetError x =>
      mkAppState (scriptLines st) (apiKeySession st) (tempKey st) (showKeyModal st)
                 (keyModalMessage st) x (isProcessingBatch st) (logs st)
  | AddLog m =>
      mkAppState (scriptLines st) (apiKeySession st) (tempKey st) (showKeyModal st)
                 (keyModalMessage st) (appError st) (isProcessingBatch st) (addLog m (logs st))
  | SetScriptLines ls =>
      mkAppState ls (apiKeySession st) (tempKey st) (showKeyModal st)
                 (keyModalMessage st) (appError st) (isProcessingBatch st) (logs st)
  | SetApiKeySession s =>
      mkAppState (scriptLines st) (Some s) (tempKey st) (showKeyModal st)
                 (keyModalMessage st) (appError st) (isProcessingBatch st) (logs st)
  | SetKeyModalMessage m =>
      mkAppState (scriptLines st) (apiKeySession st) (tempKey st) (showKeyModal st)
                 m (appError st) (isProcessingBatch st) (logs st)
  | SetTempKey k =>
      mkAppState (scriptLines st) (apiKeySession st) k (showKeyModal st)
                 (keyModalMessage st) (appError st) (isProcessingBatch st) (logs st)
  | SetShowKeyModal b =>
      mkAppState (scriptLines st) (apiKeySession st) (tempKey st) b
                 (keyModalMessage st) (appError st) (isProcessingBatch st) (logs st)
  | GenerateImageForLine _ _ => st
  | Backoff _ => st
  end.

Definition apply_effects (es : list Effect) (st : AppState) : AppState :=
  fold_left apply_effect es st.

(** ** processBatch *)

(** The local variables of one run of [processBatch], the number of service
    calls made so far and the effects performed so far, oldest first. *)
Record Run := mkRun {
  lines : list ScriptLine;
  currentSession : ApiKeySession;
  resumeIndex : nat;
  calls : nat;
  effects : list Effect
}.

Definition emit (e : Effect) (r : Run) : Run :=
  mkRun (lines r) (currentSession r) (resumeIndex r) (calls r) (effects r ++ [e]).

(** Mutation of the object [lines[resumeIndex]] bound to [line]. *)
Definition updLine (f : ScriptLine -> ScriptLine) (r : Run) : Run :=
  mkRun (alter f (resumeIndex r) (lines r)) (currentSession r) (resumeIndex r)
        (calls r) (effects r).

Definition nextIndex (r : Run) : Run :=
  mkRun (lines r) (currentSession r) (S (resumeIndex r)) (calls r) (effects r).

Definition countCall (r : Run) : Run :=
  mkRun (lines r) (currentSession r) (resumeIndex r) (S (calls r)) (effects r).

(** [currentSession.used++] *)
Definition useOne (r : Run) : Run :=
  let s := currentSession r in
  mkRun (lines r) (mkApiKeySession (key s) (limit s) (S (used s)) (isValid s) (sessionBatchId s))
        (resumeIndex r) (calls r) (effects r).

Definition markGenerating (l : ScriptLine) : ScriptLine :=
  mkScriptLine (id l) (originalText l) (spokenText l) (imagePrompt l) generating
               (imageData l) (imageFileName l) (batchId l) (timestamp l) None.

Definition markCompleted (base64 : string) (batch : nat) (now : string) (l : ScriptLine) : ScriptLine :=
  mkScriptLine (id l) (originalText l) (spokenText l) (imagePrompt l) completed
               (Some base64) (Some (derivedFileName (spokenText l))) (Some batch)
               (Some now) (error l).

Definition markFailed (message : string) (l : ScriptLine) : ScriptLine :=
  mkScriptLine (id l) (originalText l) (spokenText l) (imagePrompt l) failed
               (imageData l) (imageFileName l) (batchId l) (timestamp l) (Some message).

Definition markPending (l : ScriptLine) : ScriptLine :=
  mkScriptLine (id l) (originalText l) (spokenText l) (imagePrompt l) pending
               (imageData l) (imageFileName l) (batchId l) (timestamp l) (error l).

Fixpoint findIndex {A} (p : A -> bool) (l : list A) : option nat :=
  match l with
  | [] => None
  | x :: l' => if p x then Some 0 else S <$> findIndex p l'
  end.

Definition needsWork (l : ScriptLine) : bool :=
  Status_eqb (status l) pending || Status_eqb (status l) failed.

Definition isPending (l : ScriptLine) : bool := Status_eqb (status l) pending.

Definition quotaModalMessage : string :=
  "Quota exhausted or API blocked. Please enter a NEW API key (or re-enter if you believe this is a cache error).".

Section Controller.

(** Outcome of the n-th call of [generateImageForLine] in this run, and
    [new Date().toISOString()] at the time that call returned. *)
Variable generateImageForLine : nat -> GenResult.
Variable now : nat -> string.

(** The retry loop, lines 218-250. The result flag says that a
    [QuotaError] was rethrown. [fuel] bounds the iterations; three suffice
    (see [retryLoop_fuel]). The [console.warn] call is not modelled. *)
Fixpoint retryLoop (fuel attempts : nat) (success : bool) (r : Run) : Run * bool :=
  if (attempts <? 3) && negb success then
    match fuel with
    | 0 => (r, false)
    | S fuel' =>
        let attempts := attempts + 1 in
        let n := calls r in
        let r := countCall (emit (GenerateImageForLine (key (currentSession r)) (resumeIndex r)) r) in
        match generateImageForLine n with
        | GenOk base64 =>
            let r := updLine (markCompleted base64 (sessionBatchId (currentSession r)) (now n)) r in
            let r := useOne r in
            let r := emit (SetApiKeySession (currentSession r)) r in
            retryLoop fuel' attempts true r
        | GenQuotaError message =>
            (emit (AddLog ("Quota Error: " ++ message)) r, true)
        | GenError message =>
            if 3 <=? attempts then
              let r := updLine (markFailed message) r in
              let r := emit (AddLog ("Line #" ++ Js.showNat (resumeIndex r + 1)
                                      ++ " failed after 3 attempts.")) r in
              retryLoop fuel' attempts success r
            else
              retryLoop fuel' attempts success (emit (Backoff 1500) r)
        end
    end
  else (r, false).

(** The outer [catch] for a [QuotaError], lines 257-268. *)
Definition quotaExit (r : Run) : Run :=
  let r := updLine markPending r in
  let r := emit (SetScriptLines (lines r)) r in
  let r := emit (SetIsProcessingBatch false) r in
  let r := emit (SetError (Some ("Quota exhausted at line #"
                                 ++ Js.showNat (resumeIndex r + 1) ++ "."))) r in
  let r := emit (SetKeyModalMessage quotaModalMessage) r in
  let r := emit (SetTempKey "") r in
  emit (SetShowKeyModal true) r.

(** One pass of the loop body for a line that is not completed, lines
    206-269. The result flag says that the [QuotaError] branch returned
    from [processBatch]. *)
Definition visitLine (r : Run) : Run * bool :=
  let r := updLine markGenerating r in
  let r := emit (SetScriptLines (lines r)) r in
  let r := emit (AddLog ("Generating img for line #"
                          ++ Js.showNat (resumeIndex r + 1) ++ "...")) r in
  match retryLoop 3 0 false r with
  | (r, false) =>
      let r := nextIndex r in
      (emit (SetScriptLines (lines r)) r, false)
  | (r, true) => (quotaExit r, true)
  end.

(** The main [while] loop, lines 197-270. The result flag says that the
    function returned from inside the loop. [fuel] bounds the iterations;
    [length lines - resumeIndex] suffice (see [batchLoop_fuel]). The
    lookup cannot fail: the loop test puts the index in range. *)
Fixpoint batchLoop (fuel : nat) (r : Run) : Run * bool :=
  if (resumeIndex r <? length (lines r))
     && (used (currentSession r) <? limit (currentSession r)) then
    match fuel with
    | 0 => (r, false)
    | S fuel' =>
        match lines r !! resumeIndex r with
        | None => (r, false)
        | Some line =>
            if Status_eqb (status line) completed then batchLoop fuel' (nextIndex r)
            else
              match visitLine r with
              | (r, false) => batchLoop fuel' r
              | (r, true) => (r, true)
              end
        end
    end
  else (r, false).

(** Lines 272-287: why did the loop end? *)
Definition afterLoop (r : Run) : Run :=
  let r := emit (SetIsProcessingBatch false) r in
  match findIndex isPending (lines r) with
  | None =>
      let r := emit (AddLog "All lines processed successfully.") r in
      emit (SetScriptLines (lines r)) r
  | Some _ =>
      let s := currentSession r in
      if limit s <=? used s then
        let r := emit (AddLog ("Batch limit (" ++ Js.showNat (limit s) ++ ") reached. Pausing.")) r in
        let r := emit (SetKeyModalMessage ("Batch of " ++ Js.showNat (limit s)
                         ++ " images complete. Enter next key to continue.")) r in
        let r := emit (SetTempKey "") r in
        emit (SetShowKeyModal true) r
      else r
  end.

(** The run when the loop is entered at index [start], lines 177-195. *)
Definition enterLoop (st : AppState) (session : ApiKeySession) (start : nat) : Run :=
  mkRun (scriptLines st) session start 0
        [SetIsProcessingBatch true; SetError None;
         AddLog ("Processing lines starting from #" ++ Js.showNat (start + 1) ++ "...")].

Definition processBatch (st : AppState) (session : ApiKeySession) : Run :=
  if isProcessingBatch st then mkRun (scriptLines st) session 0 0 []
  else
    match findIndex needsWork (scriptLines st) with
    | None =>
        mkRun (scriptLines st) session 0 0
              [SetIsProcessingBatch true; SetError None;
               AddLog "All images completed!"; SetIsProcessingBatch false]
    | Some start =>
        let r := enterLoop st session start in
        match batchLoop (length (lines r) - start) r with
        | (r, true) => r
        | (r, false) => afterLoop r
        end
    end.

(** The React state once the effects of the run have been applied. *)
Definition afterBatch (st : AppState) (session : ApiKeySession) : AppState :=
  apply_effects (effects (processBatch st session)) st.

(** *** The three ways a visit can end, written out

    [k] counts the failed attempts that were followed by a backoff. *)

Definition failedTries (k : nat) (key : string) (i : nat) : list Effect :=
  concat (replicate k [GenerateImageForLine key i; Backoff 1500]).

Definition visitPrefix (r : Run) : list Effect :=
  [SetScriptLines (alter markGenerating (resumeIndex r) (lines r));
   AddLog ("Generating img for line #" ++ Js.showNat (resumeIndex r + 1) ++ "...")].

Definition visitCompleted (k : nat) (base64 : string) (r : Run) : Run :=
  let i := resumeIndex r in
  let s := currentSession r in
  let s' := mkApiKeySession (key s) (limit s) (S (used s)) (isValid s) (sessionBatchId s) in
  let ls := alter (markCompleted base64 (sessionBatchId s) (now (k + calls r))) i
                  (alter markGenerating i (lines r)) in
  mkRun ls s' (S i) (S (k + calls r))
        (effects r ++ visitPrefix r ++ failedTries k (key s) i
         ++ [GenerateImageForLine (key s) i; SetApiKeySession s'; SetScriptLines ls]).

Definition visitFailed (message : string) (r : Run) : Run :=
  let i := resumeIndex r in
  let s := currentSession r in
  let ls := alter (markFailed message) i (alter markGenerating i (lines r)) in
  mkRun ls s (S i) (3 + calls r)
        (effects r ++ visitPrefix r ++ failedTries 2 (key s) i
         ++ [GenerateImageForLine (key s) i;
             AddLog ("Line #" ++ Js.showNat (i + 1) ++ " failed after 3 attempts.");
             SetScriptLines ls]).

Definition quotaEffects (message : string) (i : nat) (ls : list ScriptLine) : list Effect :=
  [AddLog ("Quota Error: " ++ message);
   SetScriptLines ls;
   SetIsProcessingBatch false;
   SetError (Some ("Quota exhausted at line #" ++ Js.showNat (i + 1) ++ "."));
   SetKeyModalMessage quotaModalMessage;
   SetTempKey "";
   SetShowKeyModal true].

Definition visitQuota (k : nat) (message : string) (r : Run) : Run :=
  let i := resumeIndex r in
  let s := currentSession r in
  let ls := alter markPending i (alter markGenerating i (lines r)) in
  mkRun ls s i (S (k + calls r))
        (effects r ++ visitPrefix r ++ failedTries k (key s) i
         ++ GenerateImageForLine (key s) i :: quotaEffects message i ls).

Definition failsFrom (n k : nat) : Prop :=
  forall j, j < k -> exists message, generateImageForLine (j + n) = GenError message.

Inductive VisitOutcome (r : Run) : Run * bool -> Prop :=
| visit_completed k base64 :
    k <= 2 -> failsFrom (calls r) k ->
    generateImageForLine (k + calls r) = GenOk base64 ->
    VisitOutcome r (visitCompleted k base64 r, false)
| visit_failed message :
    failsFrom (calls r) 2 ->
    generateImageForLine (2 + calls r) = GenError message ->
    VisitOutcome r (visitFailed message r, false)
| visit_quota k message :
    k <= 2 -> failsFrom (calls r) k ->
    generateImageForLine (k + calls r) = GenQuotaError message ->
    VisitOutcome r (visitQuota k message r, true).

Definition loopTest (r : Run) : bool :=
  (resumeIndex r <? length (lines r))
  && (used (currentSession r) <? limit (currentSession r)).

(** The executions of the main loop, as a relation. *)
Inductive LoopRun : Run -> Run * bool -> Prop :=
| loop_exit r :
    loopTest r = false -> LoopRun r (r, false)
| loop_skip r line res :
    loopTest r = true -> lines r !! resumeIndex r = Some line ->
    status line = completed ->
    LoopRun (nextIndex r) res -> LoopRun r res
| loop_visit r line r' res :
    loopTest r = true -> lines r !! resumeIndex r = Some line ->
    status line <> completed ->
    visitLine r = (r', false) ->
    LoopRun r' res -> LoopRun r res
| loop_quota r line r' :
    loopTest r = true -> lines r !! resumeIndex r = Some line ->
    status line <> completed ->
    visitLine r = (r', true) ->
    LoopRun r (r', true).

(** The shape of a run of [processBatch]. *)
Inductive BatchShape (st : AppState) (session : ApiKeySession) : Run -> Prop :=
| shape_busy :
    isProcessingBatch st = true ->
    BatchShape st session (mkRun (scriptLines st) session 0 0 [])
| shape_nothing :
    isProcessingBatch st = false ->
    findIndex needsWork (scriptLines st) = None ->
    BatchShape st session
      (mkRun (scriptLines st) session 0 0
             [SetIsProcessingBatch true; SetError None;
              AddLog "All images completed!"; SetIsProcessingBatch false])
| shape_quota start r :
    isProcessingBatch st = false ->
    findIndex needsWork (scriptLines st) = Some start ->
    LoopRun (enterLoop st session start) (r, true) ->
    BatchShape st session r
| shape_done start r :
    isProcessingBatch st = false ->
    findIndex needsWork (scriptLines st) = Some start ->
    LoopRun (enterLoop st session start) (r, false) ->
    BatchShape st session (afterLoop r).

End Controller.

(** ** handleSync: building and normalising the timeline *)

Record Alignment := mkAlignment {
  lineId : string;
  alignStartTime : Q;
  alignEndTime : Q
}.

(** Truthiness of the optional string [imageData]. *)
Definition hasImage (l : ScriptLine) : bool :=
  match imageData l with
  | Some d => negb (String.eqb d "")
  | None => false
  end.

Definition completedLines (ls : list ScriptLine) : list ScriptLine :=
  filter (fun l => Is_true (Status_eqb (status l) completed && hasImage l)) ls.

Definition timelineEntryFor (alignments : list Alignment) (line : ScriptLine) : TimelineEntry :=
  let align := List.find (fun a => String.eqb (lineId a) (id line)) alignments in
  {| entryId := id line;
     scriptLineId := id line;
     startTime := match align with Some a => alignStartTime a | None => 0%Q end;
     endTime := match align with Some a => alignEndTime a | None => 0%Q end;
     text := spokenText line;
     image := "data:image/png;base64," ++ default "" (imageData line) |}.

Definition fallbackDurationPerSlide : Q := 3%Q.

Definition Qlt_bool (x y : Q) : bool := negb (Qle_bool y x).

(** One step of the sweep, lines 347-362: the entry after clamping. *)
Definition normalizeEntry (lastEnd : Q) (t : TimelineEntry) : TimelineEntry :=
  let start := if Qlt_bool (startTime t) lastEnd then lastEnd else startTime t in
  let stop :=
    if Qle_bool (endTime t) (start + MIN_IMAGE_DURATION)%Q then
      if Qeq_bool (endTime t) 0%Q then (start + fallbackDurationPerSlide)%Q
      else (start + MIN_IMAGE_DURATION)%Q
    else endTime t in
  mkTimelineEntry (entryId t) (scriptLineId t) start stop (text t) (image t).

(** The [for] loop of lines 346-365, threading [lastEnd]. *)
Fixpoint normalizeFrom (lastEnd : Q) (tl : list TimelineEntry) : list TimelineEntry :=
  match tl with
  | [] => []
  | t :: rest =>
      let t' := normalizeEntry lastEnd t in
      t' :: normalizeFrom (endTime t') rest
  end.

Definition normalizeTimeline (tl : list TimelineEntry) : list TimelineEntry :=
  normalizeFrom 0%Q tl.

(** The timeline [handleSync] stores for the given alignment answer. *)
Definition syncTimeline (alignments : list Alignment) (ls : list ScriptLine) : list TimelineEntry :=
  normalizeTimeline (map (timelineEntryFor alignments) (completedLines ls)).


(** ** Reading a trace of effects *)

(** The value of the local [currentSession] after the effects [es], given
    its value [s] before them: every [used++] is published at once by
    [setApiKeySession] (lines 230-231). *)
Fixpoint sessionAt (s : ApiKeySession) (es : list Effect) : ApiKeySession :=
  match es with
  | [] => s
  | SetApiKeySession s' :: es' => sessionAt s' es'
  | _ :: es' => sessionAt s es'
  end.

(** Every service call in [es] is made with budget left, and every
    published session is within its unchanged budget. *)
Fixpoint withinBudget (s : ApiKeySession) (es : list Effect) : Prop :=
  match es with
  | [] => True
  | SetApiKeySession s' :: es' =>
      used s' <= limit s' /\ limit s' = limit s /\ withinBudget s' es'
  | GenerateImageForLine _ _ :: es' => used s < limit s /\ withinBudget s es'
  | _ :: es' => withinBudget s es'
  end.

(** The line index of each service call in [es], in call order. *)
Fixpoint callLines (es : list Effect) : list nat :=
  match es with
  | [] => []
  | GenerateImageForLine _ i :: es' => i :: callLines es'
  | _ :: es' => callLines es'
  end.

Definition isOk (g : GenResult) : bool :=
  match g with GenOk _ => true | _ => false end.

Definition isQuota (g : GenResult) : bool :=
  match g with GenQuotaError _ => true | _ => false end.

(** Number of successful generations among the first [n] service calls. *)
Fixpoint successes (generateImageForLine : nat -> GenResult) (n : nat) : nat :=
  match n with
  | 0 => 0
  | S m => successes generateImageForLine m
           + (if isOk (generateImageForLine m) then 1 else 0)
  end.

(** No line is in the intermediate status. *)
Definition settled (ls : list ScriptLine) : Prop :=
  Forall (fun l => status l <> generating) ls.

(** What holds of the session whenever the loop test is evaluated. *)
Definition budgetInv (s0 : ApiKeySession) (r : Run) : Prop :=
  withinBudget s0 (effects r)
  /\ sessionAt s0 (effects r) = currentSession r
  /\ used (currentSession r) <= limit (currentSession r)
  /\ limit (currentSession r) = limit s0.

(** Effects that neither call the service nor publish a session. *)
Definition neutral (e : Effect) : Prop :=
  match e with
  | SetApiKeySession _ | GenerateImageForLine _ _ => False
  | _ => True
  end.

(** ** Scenarios *)

Definition clock (n : nat) : string := "2024-05-01T10:00:00.000Z".

(** The session [handleKeySubmit] builds for an accepted key, lines 151-157. *)
Definition newSession (k : string) (budget batch : nat) : ApiKeySession :=
  mkApiKeySession k budget 0 true batch.

(** The state in which [handleKeySubmit] calls [processBatch]. *)
Definition readyState (session : ApiKeySession) (ls : list ScriptLine) : AppState :=
  mkAppState ls (Some session) (key session) false
             "Enter a valid Google GenAI API key to continue." None false [].

Definition twoLines : list ScriptLine :=
  parseScript ("Hello world|a dog" ++ String newline "Second line").

(** A service whose quota is exhausted. *)
Definition quotaService (n : nat) : GenResult := GenQuotaError "RESOURCE_EXHAUSTED".

(** A service that fails three times and works from then on. *)
Definition flakyService (n : nat) : GenResult :=
  if n <? 3 then GenError "timeout" else GenOk "iVBORw0KGgo=".

(** A service whose errors carry an empty message. *)
Definition silentService (n : nat) : GenResult := GenError "".

Definition quotaRun : Run :=
  processBatch quotaService clock (readyState (newSession "key-1" 5 1) twoLines)
               (newSession "key-1" 5 1).

(** Budget 1, two lines, the first of which fails all its attempts. *)
Definition budgetOneRun : Run :=
  processBatch flakyService clock (readyState (newSession "key-1" 1 1) twoLines)
               (newSession "key-1" 1 1).

Definition silentRun : Run :=
  processBatch silentService clock (readyState (newSession "key-1" 5 1) twoLines)
               (newSession "key-1" 5 1).

(** A service that always returns an image. *)
Definition okService (n : nat) : GenResult := GenOk "iVBORw0KGgo=".

Definition fiveLines : list ScriptLine :=
  parseScript ("one" ++ String newline ("two" ++ String newline ("three"
               ++ String newline ("four" ++ String newline "five")))).

(** Budget 2, five pending lines. *)
Definition budgetTwoRun : Run :=
  processBatch okService clock (readyState (newSession "key-1" 2 1) fiveLines)
               (newSession "key-1" 2 1).

(** The state left by [budgetOneRun], in which a second key is accepted. *)
Definition secondState : AppState :=
  readyState (newSession "key-2" 3 2) (lines budgetOneRun).

(** ** The rest of [App.tsx] *)

(** *** types.ts, continued *)

(** [status] is a string in [ManifestEntry]; it only ever holds a line's
    status. *)
Record ManifestEntry := mkManifestEntry {
  script_line : string;
  pic_prompt : string;
  filename : string;
  entry_status : Status;
  api_key_batch : option nat;
  entry_timestamp : option string
}.

Inductive AppStage :=
| SETUP | SCRIPT_INPUT | IMAGE_GENERATION | AUDIO_SYNC | RENDERING | COMPLETED.

Definition AppStage_eqb (a b : AppStage) : bool :=
  match a, b with
  | SETUP, SETUP | SCRIPT_INPUT, SCRIPT_INPUT | IMAGE_GENERATION, IMAGE_GENERATION
  | AUDIO_SYNC, AUDIO_SYNC | RENDERING, RENDERING | COMPLETED, COMPLETED => true
  | _, _ => false
  end.

(** *** generateManifest, lines 68-76: the records behind the manifest blob *)

Definition manifestEntryOf (line : ScriptLine) : ManifestEntry :=
  {| script_line := spokenText line;
     pic_prompt := imagePrompt line;
     filename := default "" (imageFileName line);
     entry_status := status line;
     api_key_batch := batchId line;
     entry_timestamp := timestamp line |}.

Definition generateManifest (ls : list ScriptLine) : list ManifestEntry :=
  map manifestEntryOf ls.

(** *** The React state that [AppState] leaves out, and its setters *)

Record Shell := mkShell {
  core : AppState;
  stage : AppStage;
  batchIdCounter : nat;
  isKeyValidating : bool;
  timeline : list TimelineEntry;
  isSyncing : bool;
  manifest : option (list ManifestEntry)
}.

Inductive Action :=
| Core (e : Effect)
| SetStage (s : AppStage)
| SetBatchIdCounter (n : nat)
| SetIsKeyValidating (b : bool)
| SetTimeline (tl : list TimelineEntry)
| SetIsSyncing (b : bool)
| SetManifest (m : list ManifestEntry).

Definition apply_action (sh : Shell) (a : Action) : Shell :=
  match a with
  | Core e =>
      mkShell (apply_effect (core sh) e) (stage sh) (batchIdCounter sh)
              (isKeyValidating sh) (timeline sh) (isSyncing sh) (manifest sh)
  | SetStage s =>
      mkShell (core sh) s (batchIdCounter sh) (isKeyValidating sh) (timeline sh)
              (isSyncing sh) (manifest sh)
  | SetBatchIdCounter n =>
      mkShell (core sh) (stage sh) n (isKeyValidating sh) (timeline sh)
              (isSyncing sh) (manifest sh)
  | SetIsKeyValidating b =>
      mkShell (core sh) (stage sh) (batchIdCounter sh) b (timeline sh)
              (isSyncing sh) (manifest sh)
  | SetTimeline tl =>
      mkShell (core sh) (stage sh) (batchIdCounter sh) (isKeyValidating sh) tl
              (isSyncing sh) (manifest sh)
  | SetIsSyncing b =>
      mkShell (core sh) (stage sh) (batchIdCounter sh) (isKeyValidating sh)
              (timeline sh) b (manifest sh)
  | SetManifest m =>
      mkShell (core sh) (stage sh) (batchIdCounter sh) (isKeyValidating sh)
              (timeline sh) (isSyncing sh) (Some m)
  end.

Definition apply_actions (acts : list Action) (sh : Shell) : Shell :=
  fold_left apply_action acts sh.

(** *** handleTxtUpload, lines 89-127: what [reader.onload] does with the
    text of the file *)

Definition handleTxtUpload (text : string) : list Action :=
  if String.eqb text "" then []
  else
    let parsed := parseScript text in
    if 0 <? length parsed then
      [Core (SetScriptLines parsed);
       SetStage IMAGE_GENERATION;
       Core (SetKeyModalMessage "Initial Setup: Please enter your first API key.");
       Core (SetShowKeyModal true);
       Core (AddLog ("Loaded " ++ Js.showNat (length parsed) ++ " lines from TXT."))]
    else
      [Core (SetError (Some "File appears empty or invalid format."))].

(** *** handleKeySubmit, lines 131-172

    [keyIsValid] is the answer of [validateApiKey(tempKey)] and [parsed] the
    value of [parseInt(tempLimit)], [None] for NaN. [processBatch] runs in
    the closure of the render in which the button was pressed, so it reads
    [isProcessingBatch] and [scriptLines] from [sh]. *)

Definition invalidLimitMessage : string := "Please enter a valid number of images (> 0).".
Definition invalidKeyMessage : string :=
  "Key validation failed. Quota might be exhausted or key invalid.".
Definition defaultModalMessage : string := "Enter a valid Google GenAI API key to continue.".

Section KeySubmit.

Variable generateImageForLine : nat -> GenResult.
Variable now : nat -> string.

Definition handleKeySubmit (sh : Shell) (keyIsValid : bool) (parsed : option Z)
  : list Action :=
  [Core (SetError None); SetIsKeyValidating true; Core (AddLog "Testing API Key...");
   SetIsKeyValidating false]
  ++ (if keyIsValid then
        match parsed with
        | None => [Core (SetError (Some invalidLimitMessage))]
        | Some limit =>
            if (limit <? 1)%Z then [Core (SetError (Some invalidLimitMessage))]
            else
              let newBatchId := batchIdCounter sh + 1 in
              let newSession :=
                mkApiKeySession (tempKey (core sh)) (Z.to_nat limit) 0 true newBatchId in
              [SetBatchIdCounter newBatchId;
               Core (SetApiKeySession newSession);
               Core (AddLog ("Key accepted. Batch #" ++ Js.showNat newBatchId
                             ++ " started. Limit: " ++ Js.showNat (Z.to_nat limit)));
               Core (SetShowKeyModal false);
               Core (SetKeyModalMessage defaultModalMessage)]
              ++ map Core (effects (processBatch generateImageForLine now (core sh) newSession))
        end
      else [Core (SetError (Some invalidKeyMessage))]).

End KeySubmit.

(** *** handleSync, lines 299-371, for an alignment request that answers

    [hasAudio] says whether [audioFile] is set; [alignments] is the answer of
    [alignAudioWithScript]. *)

Definition handleSync (sh : Shell) (hasAudio : bool) (alignments : list Alignment)
  : list Action :=
  if negb hasAudio then [Core (SetError (Some "Please upload an audio file first."))]
  else
    match apiKeySession (core sh) with
    | None =>
        [Core (SetKeyModalMessage "Need API Key for Audio Sync.");
         Core (SetShowKeyModal true)]
    | Some _ =>
        [SetIsSyncing true; Core (AddLog "Syncing audio to script...");
         SetTimeline (syncTimeline alignments (scriptLines (core sh)));
         SetIsSyncing false;
         SetStage RENDERING;
         SetManifest (generateManifest (scriptLines (core sh)))]
    end.

(** *** Conditions under which the dashboard offers its buttons, lines 543
    and 564 *)

Definition canResume (stg : AppStage) (st : AppState) : bool :=
  negb (isProcessingBatch st) && AppStage_eqb stg IMAGE_GENERATION
  && existsb isPending (scriptLines st).

Definition isTerminal (l : ScriptLine) : bool :=
  Status_eqb (status l) completed || Status_eqb (status l) failed.

Definition canAdvanceToSync (stg : AppStage) (st : AppState) : bool :=
  AppStage_eqb stg IMAGE_GENERATION && forallb isTerminal (scriptLines st)
  && negb (isProcessingBatch st).

(** ** Predicates used to state what the code keeps *)

Fixpoint allChars (p : ascii -> bool) (s : string) : bool :=
  match s with
  | EmptyString => true
  | String c s' => p c && allChars p s'
  end.

Definition isFileNameChar (c : ascii) : bool :=
  isLowerAlnum c || Ascii.eqb c "_"%char.

(** A line carries an image, a filename, a batch identifier and a timestamp
    exactly when it is completed, and then no error. *)
Definition wellFormedLine (l : ScriptLine) : Prop :=
  match status l with
  | completed =>
      is_Some (imageData l)
      /\ imageFileName l = Some (derivedFileName (spokenText l))
      /\ is_Some (batchId l) /\ is_Some (timestamp l) /\ error l = None
  | _ =>
      imageData l = None /\ imageFileName l = None
      /\ batchId l = None /\ timestamp l = None
  end.

(** The text a line was parsed from, which no handler rewrites. *)
Definition lineText (l : ScriptLine) : string * string * string * string :=
  (id l, originalText l, spokenText l, imagePrompt l).

(** Hints that already satisfy what the sweep enforces. *)
Fixpoint consistentFrom (lastEnd : Q) (tl : list TimelineEntry) : Prop :=
  match tl with
  | [] => True
  | t :: rest =>
      (lastEnd <= startTime t)%Q
      /\ (startTime t + MIN_IMAGE_DURATION <= endTime t)%Q
      /\ consistentFrom (endTime t) rest
  end.

(** Two entries that differ at most in how their times are written. *)
Definition sameEntry (a b : TimelineEntry) : Prop :=
  entryId a = entryId b /\ scriptLineId a = scriptLineId b
  /\ text a = text b /\ image a = image b
  /\ (startTime a == startTime b)%Q /\ (endTime a == endTime b)%Q.

Fixpoint countIf {A} (p : A -> bool) (l : list A) : nat :=
  match l with
  | [] => 0
  | x :: l' => (if p x then 1 else 0) + countIf p l'
  end.

Definition notCompleted (l : ScriptLine) : bool :=
  negb (Status_eqb (status l) completed).

(** Service calls are made in document order, at most three per line. *)
Definition orderedCalls (cl : list nat) : Prop :=
  forall p q i j, p <= q -> cl !! p = Some i -> cl !! q = Some j ->
                  i <= j /\ (p + 3 <= q -> i < j).

(** Line [l'] is line [l] completed by the service call numbered [n], for
    some [n] from [lo] up to but excluding [hi], under batch [batch]. *)
Definition stamped (generateImageForLine : nat -> GenResult) (now : nat -> string)
           (batch lo hi : nat) (l l' : ScriptLine) : Prop :=
  exists n base64,
    lo <= n /\ n < hi
    /\ generateImageForLine n = GenOk base64
    /\ imageData l' = Some base64
    /\ imageFileName l' = Some (derivedFileName (spokenText l))
    /\ batchId l' = Some batch
    /\ timestamp l' = Some (now n)
    /\ error l' = None.

(** What a manifest record says about the file of its line. *)
Definition manifestEntryOk (e : ManifestEntry) : Prop :=
  match entry_status e with
  | completed =>
      filename e = derivedFileName (script_line e)
      /\ is_Some (api_key_batch e) /\ is_Some (entry_timestamp e)
  | _ => filename e = ""%string /\ api_key_batch e = None /\ entry_timestamp e = None
  end.

(** * Theorems *)

(** ** Strings *)

Section StringFacts.


Lemma length_slice0 n s : String.length (Js.slice0 n s) = Nat.min n (String.length s).
Proof.
  revert s; induction n as [|n IH]; intros [|c s]; simpl; try reflexivity.
  now rewrite IH.
Qed.



Lemma indexOf_app_found c a b :
  Js.indexOf c a = None ->
  Js.indexOf c (a ++ String c b) = Some (String.length a).
Proof.
  induction a as [|d a IH]; simpl.
  - intros _. now rewrite Ascii.eqb_refl.
  - destruct (Ascii.eqb d c); [discriminate|].
    destruct (Js.indexOf c a); [discriminate|].
    intros _. now rewrite IH.
Qed.

Lemma slice0_app a b : Js.slice0 (String.length a) (a ++ b) = a.
Proof. induction a as [|d a IH]; simpl; [now destruct b | now rewrite IH]. Qed.

Lemma substringFrom_app a c b :
  Js.substringFrom (String.length a + 1) (a ++ String c b) = b.
Proof. induction a as [|d a IH]; simpl; [now destruct b | exact IH]. Qed.

End StringFacts.

(** ** Derived filenames *)

Example sanitize_hello_world : derivedFileName "Hello world" = "hello_world.png".
Proof. reflexivity. Qed.



(** ** Script parser *)

Lemma length_parseScript text : length (parseScript text) = length (scriptRows text).
Proof. unfold parseScript. apply length_imap. Qed.

Lemma parseScript_lookup text i :
  parseScript text !! i = parseLine i <$> scriptRows text !! i.
Proof. unfold parseScript. apply list_lookup_imap. Qed.

Lemma originalText_imap_parseLine (rows : list string) (k : nat) :
  map originalText (imap (fun i => parseLine (k + i)) rows) = rows.
Proof.
  revert k; induction rows as [|l rows IH]; intros k; simpl; [reflexivity|].
  f_equal.
  - unfold parseLine. now destruct (Js.indexOf pipe l).
  - rewrite <- (IH (S k)) at 2. f_equal. apply imap_ext. intros i x _. simpl.
    f_equal. lia.
Qed.

(** C8, as the specification words it, fails: the narration of a line without
    delimiter is the trimmed line, not its full original text. *)
Lemma C8_narration_is_trimmed :
  nonBlank " hi " = true
  /\ Js.indexOf pipe " hi " = None
  /\ map originalText (parseScript " hi ") = [" hi "]
  /\ map spokenText (parseScript " hi ") = ["hi"].
Proof. repeat split. Qed.

(** C8 (amended): a line without ['|'] gives narration = the line with
    leading and trailing whitespace removed and an empty prompt; a line
    [A|B] (no delimiter in [A]) is split at the first delimiter into the
    trimmed [A] and the trimmed [B]; the records are the non-blank lines of
    the text, one each, in their order, with index-derived ids. *)
Theorem C8_parser (text : string) :
  (forall idx line, Js.indexOf pipe line = None ->
     spokenText (parseLine idx line) = Js.trim line
     /\ imagePrompt (parseLine idx line) = "")
  /\ (forall idx A B, Js.indexOf pipe A = None ->
        spokenText (parseLine idx (A ++ String pipe B)) = Js.trim A
        /\ imagePrompt (parseLine idx (A ++ String pipe B)) = Js.trim B)
  /\ length (parseScript text)
     = length (filter (fun l => Is_true (nonBlank l)) (Js.split newline text))
  /\ map originalText (parseScript text)
     = filter (fun l => Is_true (nonBlank l)) (Js.split newline text)
  /\ (forall i l, parseScript text !! i = Some l ->
        id l = "line-" ++ Js.showNat i /\ status l = pending).
Proof.
  split; [|split; [|split; [|split]]].
  - intros idx line H. unfold parseLine. now rewrite H.
  - intros idx A B H. unfold parseLine.
    rewrite (indexOf_app_found _ _ _ H), slice0_app, substringFrom_app. now split.
  - apply length_parseScript.
  - unfold parseScript. apply (originalText_imap_parseLine _ 0).
  - intros i l. rewrite parseScript_lookup.
    destruct (scriptRows text !! i) as [row|]; simpl; [|discriminate].
    intros [= <-]. unfold parseLine. now destruct (Js.indexOf pipe row).
Qed.

(** The scenario of the specification: one line, narration and prompt split
    at the delimiter. *)
Example parse_hello_world :
  map (fun l => (spokenText l, imagePrompt l)) (parseScript "Hello world|a dog")
  = [("Hello world", "a dog")].
Proof. reflexivity. Qed.

(** ** Timeline normalisation *)

Section Normalisation.

Local Open Scope Q_scope.

Lemma Qlt_bool_iff x y : Qlt_bool x y = true <-> x < y.
Proof.
  unfold Qlt_bool. rewrite negb_true_iff.
  destruct (Qle_bool y x) eqn:E.
  - apply Qle_bool_iff in E. split; [discriminate | lra].
  - split; [intros _ | reflexivity].
    destruct (Qlt_le_dec x y) as [H|H]; [exact H|].
    apply Qle_bool_iff in H. congruence.
Qed.

(** The clamped start is the larger of the hint and [lastEnd]. *)
Lemma normalizeEntry_start lastEnd t :
  lastEnd <= startTime (normalizeEntry lastEnd t)
  /\ startTime t <= startTime (normalizeEntry lastEnd t)
  /\ (startTime (normalizeEntry lastEnd t) == lastEnd
      \/ startTime (normalizeEntry lastEnd t) == startTime t).
Proof.
  unfold normalizeEntry; simpl.
  destruct (Qlt_bool (startTime t) lastEnd) eqn:E.
  - apply Qlt_bool_iff in E. split; [lra | split; [lra | left; reflexivity]].
  - assert (~ startTime t < lastEnd) by (rewrite <- Qlt_bool_iff; congruence).
    split; [lra | split; [lra | right; reflexivity]].
Qed.

Lemma normalizeEntry_duration lastEnd t :
  MIN_IMAGE_DURATION
  <= endTime (normalizeEntry lastEnd t) - startTime (normalizeEntry lastEnd t).
Proof.
  unfold normalizeEntry; simpl.
  set (start := if Qlt_bool (startTime t) lastEnd then lastEnd else startTime t).
  destruct (Qle_bool (endTime t) (start + MIN_IMAGE_DURATION)) eqn:E.
  - destruct (Qeq_bool (endTime t) 0);
      unfold fallbackDurationPerSlide, MIN_IMAGE_DURATION; lra.
  - assert (~ endTime t <= start + MIN_IMAGE_DURATION)
      by (rewrite <- Qle_bool_iff; congruence).
    lra.
Qed.




Lemma normalizeFrom_ids lastEnd tl :
  map scriptLineId (normalizeFrom lastEnd tl) = map scriptLineId tl.
Proof.
  revert lastEnd; induction tl as [|t tl IH]; intros lastEnd; simpl; [reflexivity|].
  now rewrite IH.
Qed.




(** [lastEnd] never becomes negative. *)
Lemma normalizeEntry_end_nonneg lastEnd t :
  0 <= lastEnd -> 0 <= endTime (normalizeEntry lastEnd t).
Proof.
  intros H.
  pose proof (normalizeEntry_duration lastEnd t) as Hd.
  pose proof (normalizeEntry_start lastEnd t) as [Hs _].
  unfold MIN_IMAGE_DURATION in Hd. lra.
Qed.


End Normalisation.


(** The same for the timeline [handleSync] builds: its entries are the
    completed lines that carry an image, in document order. *)
Lemma syncTimeline_ids alignments ls :
  map scriptLineId (syncTimeline alignments ls) = map id (completedLines ls).
Proof.
  unfold syncTimeline, normalizeTimeline. rewrite normalizeFrom_ids.
  induction (completedLines ls) as [|l cl IH]; simpl; [reflexivity | now rewrite IH].
Qed.




(** The specification's scenario in full: A keeps 0-2 s, B is placed at
    2-5 s, C is pushed to 5 s and given the minimum duration. *)
Example normalize_A_B_C :
  map (fun t => (scriptLineId t, Qred (startTime t), Qred (endTime t)))
      (normalizeTimeline
         [mkTimelineEntry "line-0" "line-0" 0 2 "A" "";
          mkTimelineEntry "line-1" "line-1" 0 0 "B" "";
          mkTimelineEntry "line-2" "line-2" 1 3 "C" ""])
  = [("line-0", 0%Q, 2%Q); ("line-1", 2%Q, 5%Q); ("line-2", 5%Q, (29 # 5)%Q)].
Proof. reflexivity. Qed.

(** ** Batch generation controller *)

Local Open Scope list_scope.

(** Log texts are never computed inside proofs. *)
#[local] Arguments Js.showNat : simpl never.
#[local] Arguments String.append : simpl never.

Lemma apply_effects_app es1 es2 st :
  apply_effects (es1 ++ es2) st = apply_effects es2 (apply_effects es1 st).
Proof. unfold apply_effects. apply fold_left_app. Qed.

Lemma Status_eqb_eq a b : Status_eqb a b = true <-> a = b.
Proof. destruct a, b; simpl; split; congruence. Qed.

Lemma Status_eqb_neq a b : Status_eqb a b = false <-> a <> b.
Proof. destruct a, b; simpl; split; congruence. Qed.

Lemma findIndex_Some {A} (p : A -> bool) l i :
  findIndex p l = Some i ->
  (exists x, l !! i = Some x /\ p x = true)
  /\ (forall j x, j < i -> l !! j = Some x -> p x = false).
Proof.
  revert i; induction l as [|y l IH]; intros i; simpl; [discriminate|].
  destruct (p y) eqn:E.
  - intros [= <-]. split; [eauto|]. intros j x Hj; lia.
  - destruct (findIndex p l) as [i'|]; simpl; [|discriminate].
    intros [= <-]. destruct (IH i' eq_refl) as [Hx Hlt].
    split; [exact Hx|].
    intros [|j] x Hj; simpl; [now intros [= <-]|].
    apply Hlt. lia.
Qed.

Lemma findIndex_None {A} (p : A -> bool) l :
  findIndex p l = None -> forall j x, l !! j = Some x -> p x = false.
Proof.
  induction l as [|y l IH]; simpl; [intros _ j x; now rewrite lookup_nil|].
  destruct (p y) eqn:E; [discriminate|].
  destruct (findIndex p l); simpl; [discriminate|].
  intros _ [|j] x; simpl; [now intros [= <-] | now apply IH].
Qed.

Section ControllerFacts.

Variable generateImageForLine : nat -> GenResult.
Variable now : nat -> string.

Local Abbreviation retryLoop := (retryLoop generateImageForLine now).
Local Abbreviation visitLine := (visitLine generateImageForLine now).
Local Abbreviation batchLoop := (batchLoop generateImageForLine now).
Local Abbreviation processBatch := (processBatch generateImageForLine now).
Local Abbreviation afterBatch := (afterBatch generateImageForLine now).
Local Abbreviation VisitOutcome := (VisitOutcome generateImageForLine now).
Local Abbreviation LoopRun := (LoopRun generateImageForLine now).
Local Abbreviation failsFrom := (failsFrom generateImageForLine).
Local Abbreviation BatchShape := (BatchShape generateImageForLine now).

(** Three iterations are all the retry loop can make. *)
Lemma retryLoop_fuel fuel attempts success r :
  3 - attempts <= fuel ->
  retryLoop fuel attempts success r = retryLoop (3 - attempts) attempts success r.
Proof.
  revert attempts success r; induction fuel as [|fuel IH]; intros attempts success r Hf.
  - replace (3 - attempts) with 0 by lia. reflexivity.
  - destruct (3 - attempts) as [|m] eqn:Em.
    + simpl. assert (Hlt : (attempts <? 3) = false) by (apply Nat.ltb_ge; lia).
      now rewrite Hlt.
    + simpl. destruct ((attempts <? 3) && negb success); [|reflexivity].
      assert (Hm : m = 3 - S attempts) by lia.
      destruct (generateImageForLine (calls r)).
      * rewrite IH by lia. f_equal. lia.
      * reflexivity.
      * match goal with |- context [if ?c then _ else _] => destruct c end;
          rewrite IH by lia; f_equal; lia.
Qed.

(** Evaluation of one visit: the run records are unfolded lazily, so
    that the nested updates are shared rather than copied. *)
Ltac run_eval :=
  lazy beta iota zeta delta
    [visitLine retryLoop quotaExit emit updLine countCall useOne nextIndex
     visitCompleted visitFailed visitQuota quotaEffects visitPrefix failedTries
     lines currentSession resumeIndex calls effects
     key limit used isValid sessionBatchId
     Nat.ltb Nat.leb andb negb replicate concat].

Ltac outcome_is c :=
  refine (eq_ind _ (VisitOutcome _) c _ _);
  [ run_eval; simpl; rewrite <- ?app_assoc; reflexivity ].

Lemma visitLine_outcome r : VisitOutcome r (visitLine r).
Proof.
  destruct r as [ls [ky lim us vl bid] i n es].
  pose (r := mkRun ls (mkApiKeySession ky lim us vl bid) i n es).
  assert (F0 : failsFrom n 0) by (intros j Hj; lia).
  run_eval.
  destruct (generateImageForLine n) as [b1|q1|m1] eqn:E1.
  - outcome_is (visit_completed _ now r 0 b1 (Nat.le_0_l 2) F0 E1).
  - outcome_is (visit_quota _ now r 0 q1 (Nat.le_0_l 2) F0 E1).
  - assert (F1 : failsFrom n 1).
    { intros j Hj. assert (j = 0) as -> by lia. eauto. }
    destruct (generateImageForLine (S n)) as [b2|q2|m2] eqn:E2.
    + outcome_is (visit_completed _ now r 1 b2 (le_S _ _ (le_n 1)) F1 E2).
    + outcome_is (visit_quota _ now r 1 q2 (le_S _ _ (le_n 1)) F1 E2).
    + assert (F2 : failsFrom n 2).
      { intros j Hj. destruct j as [|[|j]]; [eauto | eauto | lia]. }
      destruct (generateImageForLine (S (S n))) as [b3|q3|m3] eqn:E3.
      * outcome_is (visit_completed _ now r 2 b3 (le_n 2) F2 E3).
      * outcome_is (visit_quota _ now r 2 q3 (le_n 2) F2 E3).
      * outcome_is (visit_failed _ now r m3 F2 E3).
Qed.

(** Inversion of a visit into its three outcomes. *)
Ltac visit_cases H :=
  let O := fresh "O" in
  match type of H with
  | visitLine ?r = _ =>
      pose proof (visitLine_outcome r) as O; rewrite H in O;
      inversion O as [k base64 Hk HF HE Heq | message HF HE Heq | k message Hk HF HE Heq];
      subst; clear O
  end.

Ltac small_k k := destruct k as [|[|[|k]]]; [ | | | lia].

Lemma visitLine_frame r r' b :
  visitLine r = (r', b) ->
  length (lines r') = length (lines r)
  /\ (forall j, j <> resumeIndex r -> lines r' !! j = lines r !! j)
  /\ key (currentSession r') = key (currentSession r)
  /\ limit (currentSession r') = limit (currentSession r)
  /\ sessionBatchId (currentSession r') = sessionBatchId (currentSession r)
  /\ resumeIndex r' = (if b then resumeIndex r else S (resumeIndex r))
  /\ calls r < calls r'.
Proof.
  intros H. visit_cases H; simpl; rewrite ?length_alter;
    (split; [reflexivity|]);
    (split; [intros j Hj; now rewrite !list_lookup_alter_ne by congruence|]);
    repeat split; lia.
Qed.

(** The status a visit leaves on the visited line. *)
Lemma visitLine_status r r' b line :
  visitLine r = (r', b) ->
  lines r !! resumeIndex r = Some line ->
  exists line', lines r' !! resumeIndex r = Some line'
    /\ status line' = (if b then pending
                       else if (used (currentSession r) <? used (currentSession r'))
                            then completed else failed).
Proof.
  intros H Hl. visit_cases H; simpl;
    rewrite !list_lookup_alter_eq, Hl; simpl; eexists; (split; [reflexivity|]); simpl.
  - assert ((used (currentSession r) <? S (used (currentSession r))) = true) as ->
        by (apply Nat.ltb_lt; lia).
    reflexivity.
  - now rewrite Nat.ltb_irrefl.
  - reflexivity.
Qed.

Lemma loopTest_true r :
  loopTest r = true ->
  resumeIndex r < length (lines r)
  /\ used (currentSession r) < limit (currentSession r).
Proof.
  unfold loopTest. rewrite andb_true_iff, !Nat.ltb_lt. tauto.
Qed.

(** *** The loop function and the loop relation agree *)

Lemma batchLoop_LoopRun fuel r :
  length (lines r) - resumeIndex r <= fuel -> LoopRun r (batchLoop fuel r).
Proof.
  revert r; induction fuel as [|fuel IH]; intros r Hf.
  - simpl. fold (loopTest r).
    destruct (loopTest r) eqn:T; [|now apply loop_exit].
    apply loopTest_true in T. lia.
  - simpl. fold (loopTest r).
    destruct (loopTest r) eqn:T; [|now apply loop_exit].
    destruct (loopTest_true _ T) as [Hi _].
    destruct (lookup_lt_is_Some_2 _ _ Hi) as [line Hl]. rewrite Hl.
    destruct (Status_eqb (status line) completed) eqn:Ec.
    + apply Status_eqb_eq in Ec.
      apply (loop_skip _ _ r line); auto. apply IH. simpl. lia.
    + apply Status_eqb_neq in Ec.
      destruct (visitLine r) as [r' [|]] eqn:V.
      * now apply (loop_quota _ _ r line).
      * apply (loop_visit _ _ r line r'); auto.
        apply IH.
        destruct (visitLine_frame _ _ _ V) as (Hlen & _ & _ & _ & _ & Hidx & _).
        rewrite Hlen, Hidx. lia.
Qed.

Lemma LoopRun_det r res1 res2 : LoopRun r res1 -> LoopRun r res2 -> res1 = res2.
Proof.
  intros Hfst; revert res2; induction Hfst; intros res2 Hsnd; inversion Hsnd; subst;
    try congruence.
  - apply IHHfst. assumption.
  - apply IHHfst. congruence.
Qed.

(** The bound [length lines - resumeIndex] is enough fuel: more changes
    nothing. *)
Lemma batchLoop_fuel fuel r :
  length (lines r) - resumeIndex r <= fuel ->
  batchLoop fuel r = batchLoop (length (lines r) - resumeIndex r) r.
Proof.
  intros Hf. apply (LoopRun_det r); apply batchLoop_LoopRun; lia.
Qed.

Lemma processBatch_shape st session : BatchShape st session (processBatch st session).
Proof.
  unfold processBatch.
  destruct (isProcessingBatch st) eqn:B; [now constructor|].
  destruct (findIndex needsWork (scriptLines st)) as [start|] eqn:F;
    [|now constructor].
  pose proof (batchLoop_LoopRun
                (length (lines (enterLoop st session start)) - start)
                (enterLoop st session start) (Nat.le_refl _)) as L.
  destruct (batchLoop _ _) as [r [|]].
  - now apply (shape_quota _ _ _ _ start).
  - now apply (shape_done _ _ _ _ start).
Qed.


(** *** What the React state shows after a run *)

Lemma apply_failedTries k ky i st :
  apply_effects (failedTries k ky i) st = st.
Proof.
  induction k as [|k IH]; [reflexivity|].
  unfold failedTries in *. simpl. unfold apply_effects in *. simpl. exact IH.
Qed.

Lemma visitLine_shown st r r' b :
  visitLine r = (r', b) ->
  scriptLines (apply_effects (effects r') st) = lines r'.
Proof.
  intros H. visit_cases H;
    unfold visitCompleted, visitFailed, visitQuota; cbn [effects lines];
    rewrite !apply_effects_app, apply_failedTries; reflexivity.
Qed.

Lemma LoopRun_shown st r res :
  LoopRun r res ->
  scriptLines (apply_effects (effects r) st) = lines r ->
  scriptLines (apply_effects (effects (fst res)) st) = lines (fst res).
Proof.
  induction 1; intros Hs; simpl.
  - exact Hs.
  - apply IHLoopRun. exact Hs.
  - apply IHLoopRun. eapply visitLine_shown; eassumption.
  - eapply visitLine_shown; eassumption.
Qed.

Lemma afterLoop_lines r : lines (afterLoop r) = lines r.
Proof.
  unfold afterLoop. destruct (findIndex isPending _); [|reflexivity].
  now destruct (limit _ <=? used _).
Qed.

Lemma afterLoop_session r : currentSession (afterLoop r) = currentSession r.
Proof.
  unfold afterLoop. destruct (findIndex isPending _); [|reflexivity].
  now destruct (limit _ <=? used _).
Qed.

Lemma afterLoop_calls r : calls (afterLoop r) = calls r.
Proof.
  unfold afterLoop. destruct (findIndex isPending _); [|reflexivity].
  now destruct (limit _ <=? used _).
Qed.

Lemma afterLoop_shown st r :
  scriptLines (apply_effects (effects r) st) = lines r ->
  scriptLines (apply_effects (effects (afterLoop r)) st) = lines (afterLoop r).
Proof.
  intros Hs. unfold afterLoop. cbn [lines emit].
  destruct (findIndex isPending (lines r)).
  - destruct (limit _ <=? used _); cbn [effects lines emit];
      rewrite ?apply_effects_app; exact Hs.
  - cbn [effects lines emit]. now rewrite !apply_effects_app.
Qed.

(** The lines React holds after the run are the lines the run worked on. *)
Lemma afterBatch_scriptLines st session :
  scriptLines (afterBatch st session) = lines (processBatch st session).
Proof.
  unfold afterBatch.
  destruct (processBatch_shape st session) as [B|B F|start r B F L|start r B F L];
    try reflexivity.
  - apply (LoopRun_shown st) in L; [exact L | reflexivity].
  - apply afterLoop_shown. apply (LoopRun_shown st) in L; [exact L | reflexivity].
Qed.

(** *** No line stays in the intermediate status *)

Lemma settled_alter2 f i ls :
  (forall l, status (f (markGenerating l)) <> generating) ->
  settled ls -> settled (alter f i (alter markGenerating i ls)).
Proof.
  intros Hf Hs. unfold settled. rewrite list_alter_alter_eq.
  apply Forall_alter; [exact Hs|]. intros l _ _. apply Hf.
Qed.

Lemma visitLine_settled r r' b :
  visitLine r = (r', b) -> settled (lines r) -> settled (lines r').
Proof.
  intros H Hs. visit_cases H; cbn [lines visitCompleted visitFailed visitQuota];
    apply settled_alter2; auto; intros l; simpl; congruence.
Qed.

Lemma LoopRun_settled r res :
  LoopRun r res -> settled (lines r) -> settled (lines (fst res)).
Proof.
  induction 1; intros Hs; simpl; auto.
  - apply IHLoopRun. eapply visitLine_settled; eassumption.
  - eapply visitLine_settled; eassumption.
Qed.

Lemma processBatch_settled st session :
  settled (scriptLines st) -> settled (lines (processBatch st session)).
Proof.
  intros Hs.
  destruct (processBatch_shape st session) as [B|B F|start r B F L|start r B F L];
    try exact Hs.
  - apply LoopRun_settled in L; auto.
  - rewrite afterLoop_lines. apply LoopRun_settled in L; auto.
Qed.

(** Freshly parsed lines are all pending. *)
Lemma parseScript_settled text : settled (parseScript text).
Proof.
  unfold settled. apply Forall_lookup. intros i l Hl.
  rewrite parseScript_lookup in Hl.
  destruct (scriptRows text !! i) as [row|]; simpl in Hl; [|discriminate].
  injection Hl as <-. unfold parseLine. now destruct (Js.indexOf pipe row).
Qed.

(** C6: when no line is [generating] as a run starts (as after parsing and
    after every earlier run), none is once it has returned, however it
    returned: every line is pending, completed or failed. *)
Theorem C6_no_line_left_generating st session :
  settled (scriptLines st) ->
  settled (scriptLines (afterBatch st session))
  /\ Forall (fun l => status l = pending \/ status l = completed \/ status l = failed)
            (scriptLines (afterBatch st session))
  /\ scriptLines (afterBatch st session) = lines (processBatch st session).
Proof.
  intros Hs. rewrite afterBatch_scriptLines.
  pose proof (processBatch_settled st session Hs) as Hf.
  split; [exact Hf|]. split; [|reflexivity].
  eapply Forall_impl; [exact Hf|]. intros l Hl. simpl in Hl.
  destruct (status l); auto. congruence.
Qed.

(** *** Completed lines are left alone *)

Lemma LoopRun_completed_kept r res :
  LoopRun r res ->
  forall i l, lines r !! i = Some l -> status l = completed ->
              lines (fst res) !! i = Some l.
Proof.
  induction 1; intros i l Hl Hc; simpl; auto.
  - apply IHLoopRun; [|exact Hc].
    destruct (visitLine_frame _ _ _ H2) as (_ & Hfr & _).
    rewrite Hfr; [exact Hl|]. intros ->. congruence.
  - destruct (visitLine_frame _ _ _ H2) as (_ & Hfr & _).
    rewrite Hfr; [exact Hl|]. intros ->. congruence.
Qed.

(** C10: a line that is [completed] when a run starts is the same record
    when the run has returned: status, image, filename, batch identifier,
    timestamp and error are all untouched. *)
Theorem C10_completed_lines_unchanged st session i l :
  scriptLines st !! i = Some l ->
  status l = completed ->
  lines (processBatch st session) !! i = Some l
  /\ scriptLines (afterBatch st session) !! i = Some l.
Proof.
  intros Hl Hc. rewrite afterBatch_scriptLines.
  assert (lines (processBatch st session) !! i = Some l); [|now split].
  destruct (processBatch_shape st session) as [B|B F|start r B F L|start r B F L];
    try exact Hl.
  - apply (LoopRun_completed_kept _ _ L); auto.
  - rewrite afterLoop_lines. apply (LoopRun_completed_kept _ _ L); auto.
Qed.

(** *** Budget accounting *)

Lemma successes_failsFrom n k :
  failsFrom n k ->
  successes generateImageForLine (k + n) = successes generateImageForLine n.
Proof.
  induction k as [|k IH]; intros F; [reflexivity|].
  simpl. destruct (F k (Nat.lt_succ_diag_r k)) as [m ->]. simpl.
  rewrite IH; [lia|]. intros j Hj. apply F. lia.
Qed.

Lemma visitLine_successes r r' b :
  visitLine r = (r', b) ->
  used (currentSession r') + successes generateImageForLine (calls r)
  = used (currentSession r) + successes generateImageForLine (calls r').
Proof.
  intros H. visit_cases H; cbn [calls currentSession visitCompleted visitFailed visitQuota used].
  - cbn [successes]. rewrite HE. cbn [isOk]. rewrite successes_failsFrom by assumption. lia.
  - change (3 + calls r) with (S (2 + calls r)). cbn [successes]. rewrite HE. cbn [isOk].
    rewrite successes_failsFrom by assumption. lia.
  - cbn [successes]. rewrite HE. cbn [isOk]. rewrite successes_failsFrom by assumption. lia.
Qed.

Lemma LoopRun_successes r res :
  LoopRun r res ->
  used (currentSession (fst res)) + successes generateImageForLine (calls r)
  = used (currentSession r) + successes generateImageForLine (calls (fst res)).
Proof.
  induction 1; simpl in *.
  - reflexivity.
  - exact IHLoopRun.
  - pose proof (visitLine_successes _ _ _ H2). lia.
  - apply (visitLine_successes _ _ _ H2).
Qed.

Lemma processBatch_successes st session :
  used (currentSession (processBatch st session))
  = used session + successes generateImageForLine (calls (processBatch st session)).
Proof.
  destruct (processBatch_shape st session) as [B|B F|start r B F L|start r B F L];
    simpl; try lia.
  - apply LoopRun_successes in L. simpl in L. lia.
  - rewrite afterLoop_session, afterLoop_calls.
    apply LoopRun_successes in L. simpl in L. lia.
Qed.

(** *** The budget along the trace *)

Lemma sessionAt_app s es1 es2 :
  sessionAt s (es1 ++ es2) = sessionAt (sessionAt s es1) es2.
Proof.
  revert s; induction es1 as [|e es1 IH]; intros s; [reflexivity|].
  destruct e; simpl; apply IH.
Qed.

Lemma withinBudget_app s es1 es2 :
  withinBudget s (es1 ++ es2)
  <-> withinBudget s es1 /\ withinBudget (sessionAt s es1) es2.
Proof.
  revert s; induction es1 as [|e es1 IH]; intros s; [simpl; tauto|].
  destruct e; simpl; rewrite IH; tauto.
Qed.

Lemma withinBudget_prefix s es pre post :
  used s <= limit s -> withinBudget s es -> es = pre ++ post ->
  used (sessionAt s pre) <= limit s /\ limit (sessionAt s pre) = limit s.
Proof.
  revert s es; induction pre as [|e pre IH]; intros s es Hs W ->; [now split|].
  destruct e; simpl in *; try (eapply IH; [exact Hs | exact W | reflexivity]).
  - destruct W as (Hu & Hl & W).
    destruct (IH s0 _ Hu W eq_refl) as [H1 H2]. split; congruence.
  - destruct W as (_ & W). eapply IH; [exact Hs | exact W | reflexivity].
Qed.

Lemma withinBudget_call s es pre ky i post :
  withinBudget s es -> es = pre ++ GenerateImageForLine ky i :: post ->
  used (sessionAt s pre) < limit (sessionAt s pre).
Proof.
  revert s es; induction pre as [|e pre IH]; intros s es W ->.
  - simpl in *. tauto.
  - destruct e; simpl in *; try (eapply IH; [exact W | reflexivity]).
    + destruct W as (_ & _ & W). eapply IH; [exact W | reflexivity].
    + destruct W as (_ & W). eapply IH; [exact W | reflexivity].
Qed.

Lemma visitLine_budgetInv s0 r r' b :
  loopTest r = true -> visitLine r = (r', b) -> budgetInv s0 r -> budgetInv s0 r'.
Proof.
  intros T H (W & S0 & U & Lm). apply loopTest_true in T. destruct T as [_ T].
  visit_cases H; unfold budgetInv;
    cbn [effects currentSession visitCompleted visitFailed visitQuota] in *;
    rewrite withinBudget_app, sessionAt_app, S0;
    destruct (currentSession r) as [ky lim us vl bid]; cbn [key limit used] in *.
  - small_k k; simpl; repeat split; auto; lia.
  - simpl; repeat split; auto; lia.
  - small_k k; simpl; repeat split; auto; lia.
Qed.

Lemma LoopRun_budgetInv s0 r res :
  LoopRun r res -> budgetInv s0 r -> budgetInv s0 (fst res).
Proof.
  induction 1; intros I; simpl; auto.
  - apply IHLoopRun. eapply visitLine_budgetInv; eassumption.
  - eapply visitLine_budgetInv; eassumption.
Qed.

Lemma neutral_trace s es :
  Forall neutral es ->
  withinBudget s es /\ sessionAt s es = s /\ callLines es = [].
Proof.
  induction 1 as [|e es He _ IH]; [now repeat split|].
  destruct e; simpl in *; tauto.
Qed.

Lemma afterLoop_effects r :
  exists es, effects (afterLoop r) = effects r ++ es /\ Forall neutral es.
Proof.
  unfold afterLoop. cbn [lines emit].
  destruct (findIndex isPending (lines r)); [destruct (limit _ <=? used _)|];
    cbn [effects emit]; rewrite <- ?app_assoc; simpl.
  - eexists; split; [reflexivity | repeat constructor].
  - eexists; split; [reflexivity | repeat constructor].
  - eexists; split; [reflexivity | repeat constructor].
Qed.

Lemma afterLoop_budgetInv s0 r : budgetInv s0 r -> budgetInv s0 (afterLoop r).
Proof.
  intros (W & S0 & U & Lm). unfold budgetInv. rewrite afterLoop_session.
  destruct (afterLoop_effects r) as (es & -> & N).
  destruct (neutral_trace (currentSession r) es N) as (W' & S' & _).
  rewrite withinBudget_app, sessionAt_app, S0. repeat split; auto.
Qed.

Lemma processBatch_budgetInv st session :
  used session <= limit session -> budgetInv session (processBatch st session).
Proof.
  intros U.
  assert (I0 : forall start, budgetInv session (enterLoop st session start))
    by (intros start; repeat split; auto).
  destruct (processBatch_shape st session) as [B|B F|start r B F L|start r B F L].
  - repeat split; auto.
  - repeat split; auto.
  - apply (LoopRun_budgetInv session) in L; auto.
  - apply afterLoop_budgetInv. apply (LoopRun_budgetInv session) in L; auto.
Qed.

(** *** Which line each service call was made for *)

Lemma callLines_app es1 es2 : callLines (es1 ++ es2) = callLines es1 ++ callLines es2.
Proof.
  induction es1 as [|e es1 IH]; [reflexivity|].
  destruct e; simpl; now rewrite ?IH.
Qed.

Lemma callLines_failedTries k ky i : callLines (failedTries k ky i) = replicate k i.
Proof.
  induction k as [|k IH]; [reflexivity|].
  unfold failedTries in *. simpl. now rewrite IH.
Qed.

Lemma visitLine_callLines r r' b :
  visitLine r = (r', b) ->
  callLines (effects r')
  = callLines (effects r) ++ replicate (calls r' - calls r) (resumeIndex r)
  /\ calls r < calls r' /\ calls r' <= 3 + calls r.
Proof.
  intros H.
  visit_cases H; cbn [effects calls visitCompleted visitFailed visitQuota];
    rewrite !callLines_app, callLines_failedTries; simpl callLines.
  - replace (S (k + calls r) - calls r) with (k + 1) by lia.
    rewrite replicate_add. simpl. repeat split; lia.
  - replace (3 + calls r - calls r) with (2 + 1) by lia.
    repeat split; lia.
  - replace (S (k + calls r) - calls r) with (k + 1) by lia.
    rewrite replicate_add. simpl. repeat split; lia.
Qed.

Lemma visitLine_callCount r r' b :
  visitLine r = (r', b) ->
  length (callLines (effects r)) = calls r ->
  length (callLines (effects r')) = calls r'.
Proof.
  intros H C. destruct (visitLine_callLines _ _ _ H) as (E & H1 & H2).
  rewrite E, length_app, length_replicate. lia.
Qed.


(** *** Service calls and the quota signal *)

Lemma failsFrom_not_quota n k j :
  failsFrom n k -> n <= j -> j < k + n -> isQuota (generateImageForLine j) = false.
Proof.
  intros F H1 H2. destruct (F (j - n)) as [m Hm]; [lia|].
  replace (j - n + n) with j in Hm by lia. now rewrite Hm.
Qed.

Lemma visitLine_no_quota r r' :
  visitLine r = (r', false) ->
  forall n, calls r <= n -> n < calls r' -> isQuota (generateImageForLine n) = false.
Proof.
  intros H n H1 H2.
  visit_cases H; cbn [calls visitCompleted visitFailed] in H2.
  - destruct (Nat.eq_dec n (k + calls r)) as [->|Hne]; [now rewrite HE|].
    apply (failsFrom_not_quota (calls r) k); auto; lia.
  - destruct (Nat.eq_dec n (2 + calls r)) as [->|Hne]; [now rewrite HE|].
    apply (failsFrom_not_quota (calls r) 2); auto; lia.
Qed.

(** A run of the loop that returns early does so from a visit ended by the
    quota signal, the first such signal of the run; a run that does not
    has seen none. *)
Lemma LoopRun_quota r res :
  LoopRun r res ->
  if snd res then
    exists r1 k message,
      fst res = visitQuota k message r1
      /\ k <= 2
      /\ generateImageForLine (k + calls r1) = GenQuotaError message
      /\ loopTest r1 = true
      /\ calls r <= calls r1
      /\ (forall n, calls r <= n -> n < k + calls r1 ->
                    isQuota (generateImageForLine n) = false)
      /\ key (currentSession r1) = key (currentSession r)
      /\ resumeIndex r <= resumeIndex r1
      /\ (forall j, resumeIndex r1 <= j -> lines r1 !! j = lines r !! j)
      /\ (length (callLines (effects r)) = calls r ->
          length (callLines (effects r1)) = calls r1)
  else
    forall n, calls r <= n -> n < calls (fst res) ->
              isQuota (generateImageForLine n) = false.
Proof.
  induction 1 as [r T | r line res T Hl Hc L IH | r line r' res T Hl Hc V L IH
                  | r line r' T Hl Hc V].
  - simpl. intros n; lia.
  - destruct (snd res); [|exact IH].
    destruct IH as (r1 & k & m & E & Hk & Q & T1 & C1 & NQ & K & I & Fr & CC).
    exists r1, k, m. simpl in *. repeat split; auto. lia.
  - destruct (visitLine_frame _ _ _ V) as (_ & Fr' & K' & _ & _ & I' & C').
    pose proof (visitLine_no_quota _ _ V) as NQ'.
    destruct (snd res).
    + destruct IH as (r1 & k & m & E & Hk & Q & T1 & C1 & NQ & K & I & Fr & CC).
      exists r1, k, m. repeat split; auto; try lia; try congruence.
      * intros n H1 H2. destruct (Nat.lt_ge_cases n (calls r')); auto.
      * intros j Hj. rewrite Fr by exact Hj. apply Fr'. lia.
      * intros C0. apply CC. eapply visitLine_callCount; eassumption.
    + intros n H1 H2. destruct (Nat.lt_ge_cases n (calls r')); auto.
  - simpl. visit_cases V. exists r, k, message. repeat split; auto.
    intros n H1 H2. apply (failsFrom_not_quota (calls r) k); auto.
Qed.

Lemma LoopRun_behind r res :
  LoopRun r res -> snd res = false ->
  (forall j l, j < resumeIndex r -> lines r !! j = Some l -> status l <> pending) ->
  loopTest (fst res) = false
  /\ (forall j l, j < resumeIndex (fst res) -> lines (fst res) !! j = Some l ->
                  status l <> pending).
Proof.
  induction 1 as [r T | r line res T Hl Hc L IH | r line r' res T Hl Hc V L IH
                  | r line r' T Hl Hc V]; intros Hb Hp.
  - now split.
  - apply IH; [exact Hb|]. simpl. intros j l Hj Hjl.
    destruct (Nat.eq_dec j (resumeIndex r)) as [->|Hne].
    + congruence.
    + apply (Hp j); [lia | exact Hjl].
  - apply IH; [exact Hb|].
    destruct (visitLine_frame _ _ _ V) as (_ & Fr & _ & _ & _ & I & _).
    destruct (visitLine_status _ _ _ _ V Hl) as (line' & Hl' & St).
    rewrite I. intros j l Hj Hjl.
    destruct (Nat.eq_dec j (resumeIndex r)) as [->|Hne].
    + rewrite Hl' in Hjl. injection Hjl as <-. rewrite St.
      destruct (_ <? _); congruence.
    + rewrite Fr in Hjl by exact Hne. apply (Hp j); [lia | exact Hjl].
  - discriminate.
Qed.

Lemma enterLoop_behind st session start :
  findIndex needsWork (scriptLines st) = Some start ->
  forall j l, j < resumeIndex (enterLoop st session start) ->
              lines (enterLoop st session start) !! j = Some l -> status l <> pending.
Proof.
  intros F j l Hj Hl. simpl in *.
  destruct (findIndex_Some _ _ _ F) as [_ Hlt].
  specialize (Hlt j l Hj Hl). unfold needsWork in Hlt.
  intros E. rewrite E in Hlt. discriminate.
Qed.

(** A freshly accepted session (lines 151-157) starts within its budget. *)
Lemma newSession_within_budget k budget batch :
  used (newSession k budget batch) <= limit (newSession k budget batch).
Proof. simpl. lia. Qed.

(** C2: with a session that starts within its budget L, the consumption
    counter is at most L after every prefix of the run's effects and when
    the run has returned; every call of the image service is made while the
    counter is below L, so none is started once it has reached L; and a run
    that was not cut short by the quota signal and leaves a pending line
    has stopped with the counter exactly at L. *)
Theorem C2_budget_never_exceeded st session :
  used session <= limit session ->
  (forall pre post, effects (processBatch st session) = pre ++ post ->
     used (sessionAt session pre) <= limit session)
  /\ currentSession (processBatch st session)
     = sessionAt session (effects (processBatch st session))
  /\ used (currentSession (processBatch st session)) <= limit session
  /\ (forall pre ky i post,
        effects (processBatch st session) = pre ++ GenerateImageForLine ky i :: post ->
        used (sessionAt session pre) < limit session)
  /\ (isProcessingBatch st = false ->
      (forall n, n < calls (processBatch st session) ->
                 isQuota (generateImageForLine n) = false) ->
      (exists j l, lines (processBatch st session) !! j = Some l /\ status l = pending) ->
      used (currentSession (processBatch st session)) = limit session).
Proof.
  intros U.
  destruct (processBatch_budgetInv st session U) as (W & S0 & Ur & Lm).
  split; [|split; [|split; [|split]]].
  - intros pre post E. eapply withinBudget_prefix; eauto.
  - symmetry. exact S0.
  - lia.
  - intros pre ky i post E.
    pose proof (withinBudget_call _ _ _ _ _ _ W E) as Hlt.
    destruct (withinBudget_prefix _ _ pre (GenerateImageForLine ky i :: post) U W E)
      as [_ Hl].
    lia.
  - intros B NQ (j & l & Hj & Hp).
    destruct (processBatch_shape st session) as [B'|B' F|start r B' F L|start r B' F L].
    + congruence.
    + pose proof (findIndex_None _ _ F j l Hj) as Hn. unfold needsWork in Hn.
      simpl in Hj. rewrite Hp in Hn. discriminate.
    + pose proof (LoopRun_quota _ _ L) as Q. simpl in Q.
      destruct Q as (r1 & k & m & -> & Hk & Q & _).
      specialize (NQ (k + calls r1)). cbn [calls visitQuota] in NQ.
      rewrite Q in NQ. specialize (NQ (Nat.lt_succ_diag_r _)). discriminate.
    + rewrite afterLoop_lines in Hj. rewrite afterLoop_session in *.
      destruct (LoopRun_behind _ _ L eq_refl (enterLoop_behind st session start F))
        as [T Hb]. simpl in T, Hb.
      unfold loopTest in T. apply andb_false_iff in T.
      destruct T as [T|T].
      * apply Nat.ltb_ge in T. exfalso. apply (Hb j l); auto.
        apply lookup_lt_Some in Hj. lia.
      * apply Nat.ltb_ge in T. lia.
Qed.

(** The effects of a visit start with the status update, the log line and
    the first call for the visited line. *)
Lemma visitLine_starts r r' b :
  visitLine r = (r', b) ->
  exists ls msg rest,
    effects r' = effects r ++ SetScriptLines ls :: AddLog msg
                 :: GenerateImageForLine (key (currentSession r)) (resumeIndex r) :: rest.
Proof.
  intros H.
  visit_cases H; cbn [effects visitCompleted visitFailed visitQuota visitPrefix];
    try (small_k k); simpl; do 3 eexists; reflexivity.
Qed.

Lemma LoopRun_effects r res :
  LoopRun r res -> exists es, effects (fst res) = effects r ++ es.
Proof.
  induction 1 as [r T | r line res T Hl Hc L IH | r line r' res T Hl Hc V L IH
                  | r line r' T Hl Hc V].
  - exists []. simpl. now rewrite app_nil_r.
  - exact IH.
  - destruct IH as (es & ->).
    destruct (visitLine_starts _ _ _ V) as (ls & msg & rest & ->).
    eexists. rewrite <- app_assoc. reflexivity.
  - simpl. destruct (visitLine_starts _ _ _ V) as (ls & msg & rest & ->).
    eexists. reflexivity.
Qed.

Lemma LoopRun_callLines r res :
  LoopRun r res ->
  exists new, callLines (effects (fst res)) = callLines (effects r) ++ new
              /\ Forall (fun i => resumeIndex r <= i) new.
Proof.
  induction 1 as [r T | r line res T Hl Hc L IH | r line r' res T Hl Hc V L IH
                  | r line r' T Hl Hc V].
  - exists []. simpl. now rewrite app_nil_r.
  - destruct IH as (new & E & F). exists new. split; [exact E|].
    eapply Forall_impl; [exact F|]. simpl. intros; lia.
  - destruct IH as (new & E & F).
    destruct (visitLine_callLines _ _ _ V) as (E' & _).
    destruct (visitLine_frame _ _ _ V) as (_ & _ & _ & _ & _ & I & _).
    eexists. rewrite E, E', <- app_assoc. split; [reflexivity|].
    apply Forall_app. split.
    + apply Forall_replicate. lia.
    + eapply Forall_impl; [exact F|]. simpl. intros; lia.
  - destruct (visitLine_callLines _ _ _ V) as (E' & _).
    eexists. simpl. rewrite E'. split; [reflexivity|].
    apply Forall_replicate. lia.
Qed.

(** Lines the loop has moved past are not touched again. *)
Lemma LoopRun_lines_behind r res :
  LoopRun r res ->
  forall j, j < resumeIndex r -> lines (fst res) !! j = lines r !! j.
Proof.
  induction 1 as [r T | r line res T Hl Hc L IH | r line r' res T Hl Hc V L IH
                  | r line r' T Hl Hc V]; intros j Hj.
  - reflexivity.
  - rewrite IH by (simpl; lia). reflexivity.
  - destruct (visitLine_frame _ _ _ V) as (_ & Fr & _ & _ & _ & I & _).
    rewrite IH by lia. apply Fr. lia.
  - destruct (visitLine_frame _ _ _ V) as (_ & Fr & _).
    simpl. apply Fr. lia.
Qed.

(** The calls of one visit, when three of them in a row are for the same
    line and all fail otherwise than by quota, are its three attempts. *)
Lemma visitLine_three r r' b new n i m1 m2 m3 :
  visitLine r = (r', b) ->
  length (callLines (effects r)) = calls r ->
  Forall (fun j => S (resumeIndex r) <= j) new ->
  calls r <= n -> n < calls r' ->
  (callLines (effects r') ++ new) !! n = Some i ->
  (callLines (effects r') ++ new) !! S n = Some i ->
  (callLines (effects r') ++ new) !! S (S n) = Some i ->
  generateImageForLine n = GenError m1 ->
  generateImageForLine (S n) = GenError m2 ->
  generateImageForLine (S (S n)) = GenError m3 ->
  n = calls r /\ i = resumeIndex r /\ r' = visitFailed m3 r /\ b = false.
Proof.
  intros V C F H1 H2 L0 L1 L2 E0 E1 E2.
  destruct (visitLine_callLines _ _ _ V) as (E & Hlt & Hle).
  pose proof (visitLine_callCount _ _ _ V C) as C'.
  assert (Hi : i = resumeIndex r).
  { rewrite lookup_app_l in L0 by lia. rewrite E in L0.
    rewrite lookup_app_r in L0 by lia.
    apply lookup_replicate in L0. tauto. }
  assert (Hin : forall p, (callLines (effects r') ++ new) !! p = Some i -> p < calls r').
  { intros p Hp. destruct (Nat.lt_ge_cases p (calls r')) as [|Hge]; [assumption|].
    rewrite lookup_app_r in Hp by lia.
    rewrite Forall_lookup in F. specialize (F _ _ Hp). simpl in F. lia. }
  apply Hin in L1. apply Hin in L2.
  assert (Hn : n = calls r) by lia. subst n.
  visit_cases V; cbn [calls visitCompleted visitQuota visitFailed] in *.
  - assert (k = 2) as -> by lia. simpl in HE. congruence.
  - simpl in HE. assert (message = m3) by congruence. subst. auto.
  - assert (k = 2) as -> by lia. simpl in HE. congruence.
Qed.

Lemma LoopRun_three_failures r res :
  LoopRun r res ->
  length (callLines (effects r)) = calls r ->
  forall n i m1 m2 m3,
    calls r <= n ->
    callLines (effects (fst res)) !! n = Some i ->
    callLines (effects (fst res)) !! S n = Some i ->
    callLines (effects (fst res)) !! S (S n) = Some i ->
    generateImageForLine n = GenError m1 ->
    generateImageForLine (S n) = GenError m2 ->
    generateImageForLine (S (S n)) = GenError m3 ->
    exists r1,
      calls r1 = n /\ resumeIndex r1 = i /\ loopTest r1 = true
      /\ length (callLines (effects r1)) = calls r1
      /\ key (currentSession r1) = key (currentSession r)
      /\ resumeIndex r <= resumeIndex r1
      /\ (forall j, resumeIndex r1 <= j -> lines r1 !! j = lines r !! j)
      /\ (exists es, effects r1 = effects r ++ es)
      /\ LoopRun (visitFailed m3 r1) res.
Proof.
  induction 1 as [r T | r line res T Hl Hc L IH | r line r' res T Hl Hc V L IH
                  | r line r' T Hl Hc V];
    intros C n i m1 m2 m3 Hn L0 L1 L2 E0 E1 E2.
  - simpl in L0. apply lookup_lt_Some in L0. lia.
  - destruct (IH C n i m1 m2 m3 Hn L0 L1 L2 E0 E1 E2)
      as (r1 & H1 & H2 & H3 & H4 & H5 & H6 & H7 & H8 & H9).
    exists r1. simpl in *. repeat split; auto. lia.
  - destruct (visitLine_frame _ _ _ V) as (_ & Fr & K & _ & _ & I & _).
    pose proof (visitLine_callCount _ _ _ V C) as C'.
    destruct (Nat.lt_ge_cases n (calls r')) as [Hlt|Hge].
    + destruct (LoopRun_callLines _ _ L) as (new & En & Fn).
      rewrite En in L0, L1, L2. rewrite I in Fn.
      destruct (visitLine_three _ _ _ _ _ _ _ _ _ V C Fn Hn Hlt L0 L1 L2 E0 E1 E2)
        as (-> & -> & -> & _).
      exists r. repeat split; auto.
      exists []. now rewrite app_nil_r.
    + destruct (IH C' n i m1 m2 m3 Hge L0 L1 L2 E0 E1 E2)
        as (r1 & H1 & H2 & H3 & H4 & H5 & H6 & H7 & (es & H8) & H9).
      exists r1. repeat split; auto; try congruence; try lia.
      * intros j Hj. rewrite H7 by exact Hj. apply Fr. lia.
      * destruct (visitLine_starts _ _ _ V) as (ls & msg & rest & E).
        rewrite H8, E, <- app_assoc. eexists; reflexivity.
  - simpl in *.
    destruct (Nat.lt_ge_cases n (calls r')) as [Hlt|Hge].
    + rewrite <- (app_nil_r (callLines (effects r'))) in L0, L1, L2.
      destruct (visitLine_three _ _ _ [] _ _ _ _ _ V C (List.Forall_nil _) Hn Hlt
                                L0 L1 L2 E0 E1 E2) as (_ & _ & _ & ?).
      discriminate.
    + pose proof (visitLine_callCount _ _ _ V C) as C'.
      apply lookup_lt_Some in L0. lia.
Qed.

(** *** Quota exhaustion *)

(** C1: when a call of the image service signals quota exhaustion, it is the
    last call of the run; the run's effects end with that call followed by
    the quota exit, in which the key field is emptied ([SetTempKey ""])
    before the key dialog is shown; the line being processed is pending and
    the lines after it are as they were; React ends up with these lines, an
    empty key field, the dialog open and the run flag cleared. *)
Theorem C1_quota_exhaustion st session n message :
  n < calls (processBatch st session) ->
  generateImageForLine n = GenQuotaError message ->
  S n = calls (processBatch st session)
  /\ (exists pre,
        effects (processBatch st session)
        = pre ++ GenerateImageForLine (key session) (resumeIndex (processBatch st session))
              :: quotaEffects message (resumeIndex (processBatch st session))
                              (lines (processBatch st session))
        /\ length (callLines pre) = n)
  /\ (exists l, lines (processBatch st session) !! resumeIndex (processBatch st session)
                = Some l
                /\ status l = pending)
  /\ (forall j, resumeIndex (processBatch st session) < j ->
                lines (processBatch st session) !! j = scriptLines st !! j)
  /\ scriptLines (afterBatch st session) = lines (processBatch st session)
  /\ tempKey (afterBatch st session) = ""%string
  /\ showKeyModal (afterBatch st session) = true
  /\ isProcessingBatch (afterBatch st session) = false.
Proof.
  intros Hn Hq.
  pose proof (afterBatch_scriptLines st session) as Hshown.
  unfold afterBatch in *.
  destruct (processBatch_shape st session) as [B|B F|start r B F L|start r B F L].
  - simpl in Hn. lia.
  - simpl in Hn. lia.
  - pose proof (LoopRun_quota _ _ L) as Q. simpl in Q.
    destruct Q as (r1 & k & m & -> & Hk & Q & T1 & C1 & NQ & K & I & Fr & CC).
    simpl in K, C1, NQ, Fr, CC. specialize (CC eq_refl).
    cbn [calls visitQuota] in Hn.
    assert (n = k + calls r1) as ->.
    { destruct (Nat.eq_dec n (k + calls r1)) as [|Hne]; [assumption|].
      assert (Hf : isQuota (generateImageForLine n) = false) by (apply NQ; lia).
      rewrite Hq in Hf. discriminate. }
    assert (m = message) by congruence. subst m.
    destruct (loopTest_true _ T1) as [Hi _].
    destruct (lookup_lt_is_Some_2 _ _ Hi) as [l1 Hl1].
    cbn [calls effects lines resumeIndex visitQuota] in *.
    split; [reflexivity|]. split; [|split; [|split; [|split]]].
    + exists (effects r1 ++ visitPrefix r1
              ++ failedTries k (key (currentSession r1)) (resumeIndex r1)).
      rewrite <- !app_assoc, K. split; [reflexivity|].
      rewrite !callLines_app, callLines_failedTries, !length_app, length_replicate, CC.
      simpl. lia.
    + exists (markPending (markGenerating l1)).
      rewrite !list_lookup_alter_eq, Hl1. now split.
    + intros j Hj. rewrite !list_lookup_alter_ne by lia. apply Fr. lia.
    + exact Hshown.
    + rewrite !app_assoc, apply_effects_app. repeat split.
  - exfalso. pose proof (LoopRun_quota _ _ L) as Q. simpl in Q.
    rewrite afterLoop_calls in Hn.
    assert (Hf : isQuota (generateImageForLine n) = false) by (apply Q; [lia | exact Hn]).
    rewrite Hq in Hf. discriminate.
Qed.

(** *** Three failed attempts *)

(** C5 (amended): when three calls in a row are made for the same line and
    all three fail otherwise than by quota, that line ends the run failed
    with the message of the third error as its error text (empty when that
    message is empty); the three calls are separated by a 1.5 s backoff each,
    and the third is followed by the log line and the status update, not by
    a backoff; and when the next line exists and is not completed, the run
    goes on to call the service for it. *)
Theorem C5_three_failed_attempts st session n i m1 m2 m3 :
  callLines (effects (processBatch st session)) !! n = Some i ->
  callLines (effects (processBatch st session)) !! S n = Some i ->
  callLines (effects (processBatch st session)) !! S (S n) = Some i ->
  generateImageForLine n = GenError m1 ->
  generateImageForLine (S n) = GenError m2 ->
  generateImageForLine (S (S n)) = GenError m3 ->
  (exists l, lines (processBatch st session) !! i = Some l
             /\ status l = failed /\ error l = Some m3)
  /\ exists pre ls post,
       effects (processBatch st session)
       = pre ++ [GenerateImageForLine (key session) i; Backoff 1500;
                 GenerateImageForLine (key session) i; Backoff 1500;
                 GenerateImageForLine (key session) i;
                 AddLog ("Line #" +:+ Js.showNat (i + 1) +:+ " failed after 3 attempts.");
                 SetScriptLines ls] ++ post
       /\ length (callLines pre) = n
       /\ (forall l', scriptLines st !! S i = Some l' -> status l' <> completed ->
             exists ls' msg post',
               post = SetScriptLines ls' :: AddLog msg
                      :: GenerateImageForLine (key session) (S i) :: post').
Proof.
  intros L0 L1 L2 E0 E1 E2.
  assert (Hcore : exists start res es,
             LoopRun (enterLoop st session start) res
             /\ lines (processBatch st session) = lines (fst res)
             /\ effects (processBatch st session) = effects (fst res) ++ es
             /\ callLines (effects (processBatch st session))
                = callLines (effects (fst res))).
  { destruct (processBatch_shape st session) as [B|B F|start r B F L|start r B F L].
    - simpl in L0. rewrite lookup_nil in L0. discriminate.
    - simpl in L0. rewrite lookup_nil in L0. discriminate.
    - exists start, (r, true), []. simpl. now rewrite app_nil_r.
    - destruct (afterLoop_effects r) as (es & Ees & N).
      exists start, (r, false), es. simpl. rewrite afterLoop_lines, Ees.
      repeat split; auto.
      rewrite callLines_app. destruct (neutral_trace session es N) as (_ & _ & ->).
      now rewrite app_nil_r. }
  destruct Hcore as (start & res & es & L & El & Ee & Ec).
  rewrite Ec in L0, L1, L2. rewrite El, Ee. clear El Ee Ec.
  destruct (LoopRun_three_failures _ _ L eq_refl n i m1 m2 m3 (Nat.le_0_l n)
                                   L0 L1 L2 E0 E1 E2)
    as (r1 & H1 & H2 & T1 & C1 & K & I & Fr & (pre1 & P1) & L').
  simpl in K, Fr, P1. subst i.
  destruct (loopTest_true _ T1) as [Hi Hu].
  destruct (lookup_lt_is_Some_2 _ _ Hi) as [l1 Hl1].
  split.
  - exists (markFailed m3 (markGenerating l1)).
    rewrite (LoopRun_lines_behind _ _ L') by (simpl; lia).
    cbn [lines visitFailed]. rewrite !list_lookup_alter_eq, Hl1. now repeat split.
  - destruct (LoopRun_effects _ _ L') as (post & Ep).
    cbn [effects visitFailed] in Ep.
    exists (effects r1 ++ visitPrefix r1), (lines (visitFailed m3 r1)), (post ++ es).
    split; [|split].
    + rewrite Ep, K. unfold failedTries. simpl. rewrite <- !app_assoc. reflexivity.
    + rewrite callLines_app, length_app, C1. simpl. lia.
    + intros l' Hl' Hc'.
      assert (Hnext : lines (visitFailed m3 r1) !! S (resumeIndex r1) = Some l').
      { cbn [lines visitFailed]. rewrite !list_lookup_alter_ne by lia.
        rewrite Fr by lia. exact Hl'. }
      assert (T2 : loopTest (visitFailed m3 r1) = true).
      { unfold loopTest. cbn [resumeIndex currentSession lines visitFailed].
        rewrite !length_alter. apply andb_true_iff. split; apply Nat.ltb_lt; [|exact Hu].
        assert (Hs : is_Some (lines r1 !! S (resumeIndex r1)))
          by (rewrite Fr by lia; eauto).
        apply lookup_lt_is_Some_1 in Hs. exact Hs. }
      assert (Hvis : exists r3 b rest,
                 visitLine (visitFailed m3 r1) = (r3, b)
                 /\ effects (fst res) = effects r3 ++ rest).
      { inversion L' as [r0 T0 | r0 line0 res0 T0 Hl0 Hc0 L0'
                         | r0 line0 r3 res0 T0 Hl0 Hc0 V0 L0'
                         | r0 line0 r3 T0 Hl0 Hc0 V0]; subst.
        - congruence.
        - cbn [resumeIndex visitFailed] in Hl0. rewrite Hnext in Hl0.
          injection Hl0 as <-. contradiction.
        - destruct (LoopRun_effects _ _ L0') as (rest & Er).
          exists r3, false, rest. split; assumption.
        - exists r3, true, []. simpl. rewrite app_nil_r. split; auto. }
      destruct Hvis as (r3 & b & rest & V & Er).
      destruct (visitLine_starts _ _ _ V) as (ls' & msg & rest' & Es).
      cbn [effects currentSession resumeIndex visitFailed] in Es.
      exists ls', msg, (rest' ++ rest ++ es).
      rewrite Er, Es in Ep. rewrite <- !app_assoc in Ep.
      apply app_inv_head in Ep. apply app_inv_head in Ep.
      unfold failedTries in Ep. simpl in Ep.
      apply (f_equal (drop 7)) in Ep. simpl in Ep. rewrite drop_0 in Ep.
      rewrite <- Ep, K. simpl. rewrite <- !app_assoc. reflexivity.
Qed.

(** *** What consumes budget *)

(** C9: after a run the consumption counter is its value before the run
    plus the number of service calls of the run that returned an image;
    failed and quota-ended calls add nothing. So a session of budget 1 can
    visit two lines in one run: the first fails three times, the second is
    generated. *)
Theorem C9_budget_counts_successes st session :
  used (currentSession (processBatch st session))
  = used session + successes generateImageForLine (calls (processBatch st session))
  /\ (limit (currentSession budgetOneRun) = 1
      /\ used (currentSession budgetOneRun) = 1
      /\ callLines (effects budgetOneRun) = [0; 0; 0; 1]
      /\ map status (lines budgetOneRun) = [failed; completed]).
Proof.
  split; [apply processBatch_successes|].
  repeat split.
Qed.

(** *** What a run keeps of every line *)

Lemma map_alter_fixed {A B} (g : A -> B) (f : A -> A) i (l : list A) :
  (forall x, g (f x) = g x) -> map g (alter f i l) = map g l.
Proof.
  intros H. revert i; induction l as [|x l IH]; intros [|i]; simpl; auto.
  - now rewrite H.
  - f_equal. apply IH.
Qed.

Lemma visitLine_lineText r r' b :
  visitLine r = (r', b) -> map lineText (lines r') = map lineText (lines r).
Proof.
  intros H. visit_cases H; cbn [lines visitCompleted visitFailed visitQuota];
    rewrite list_alter_alter_eq; apply map_alter_fixed; reflexivity.
Qed.

Lemma LoopRun_lineText r res :
  LoopRun r res -> map lineText (lines (fst res)) = map lineText (lines r).
Proof.
  induction 1 as [r T | r line res T Hl Hc L IH | r line r' res T Hl Hc V L IH
                  | r line r' T Hl Hc V]; simpl; auto.
  - rewrite IH. eapply visitLine_lineText; eassumption.
  - eapply visitLine_lineText; eassumption.
Qed.

Lemma processBatch_lineText st session :
  map lineText (lines (processBatch st session)) = map lineText (scriptLines st).
Proof.
  destruct (processBatch_shape st session) as [B|B F|start r B F L|start r B F L];
    try reflexivity.
  - apply LoopRun_lineText in L. exact L.
  - rewrite afterLoop_lines. apply LoopRun_lineText in L. exact L.
Qed.

(** X9: a run never adds, removes or reorders lines and never rewrites a
    line's identifier, original text, narration or prompt. *)
Theorem processBatch_keeps_text st session :
  map lineText (scriptLines (afterBatch st session)) = map lineText (scriptLines st)
  /\ length (scriptLines (afterBatch st session)) = length (scriptLines st).
Proof.
  rewrite afterBatch_scriptLines.
  pose proof (processBatch_lineText st session) as H.
  split; [exact H|].
  apply (f_equal length) in H. now rewrite !length_map in H.
Qed.

Lemma visitLine_wellFormed r r' b line :
  visitLine r = (r', b) ->
  lines r !! resumeIndex r = Some line -> status line <> completed ->
  Forall wellFormedLine (lines r) -> Forall wellFormedLine (lines r').
Proof.
  intros H Hl Hc Hw.
  visit_cases H; cbn [lines visitCompleted visitFailed visitQuota];
    rewrite list_alter_alter_eq; (apply Forall_alter; [exact Hw|]);
    intros x Hx Wx; rewrite Hl in Hx; injection Hx as <-;
    unfold wellFormedLine in *; simpl.
  - repeat split; eauto.
  - destruct (status line); try contradiction; tauto.
  - destruct (status line); try contradiction; tauto.
Qed.

Lemma LoopRun_wellFormed r res :
  LoopRun r res -> Forall wellFormedLine (lines r) ->
  Forall wellFormedLine (lines (fst res)).
Proof.
  induction 1 as [r T | r line res T Hl Hc L IH | r line r' res T Hl Hc V L IH
                  | r line r' T Hl Hc V]; intros Hw; simpl; auto.
  - apply IH. eapply visitLine_wellFormed; eassumption.
  - eapply visitLine_wellFormed; eassumption.
Qed.

Lemma processBatch_wellFormed st session :
  Forall wellFormedLine (scriptLines st) ->
  Forall wellFormedLine (lines (processBatch st session)).
Proof.
  intros Hw.
  destruct (processBatch_shape st session) as [B|B F|start r B F L|start r B F L];
    try exact Hw.
  - apply LoopRun_wellFormed in L; auto.
  - rewrite afterLoop_lines. apply LoopRun_wellFormed in L; auto.
Qed.

(** X10: if every line carries an image, a filename, a batch identifier and
    a timestamp exactly when it is completed (as after parsing), the same
    holds after a run, the filename being the one derived from the
    narration. *)
Theorem processBatch_keeps_lines_well_formed st session :
  Forall wellFormedLine (scriptLines st) ->
  Forall wellFormedLine (scriptLines (afterBatch st session)).
Proof.
  intros Hw. rewrite afterBatch_scriptLines. now apply processBatch_wellFormed.
Qed.

(** *** What a run writes on the lines it completes *)

Lemma LoopRun_calls_le r res : LoopRun r res -> calls r <= calls (fst res).
Proof.
  induction 1 as [r T | r line res T Hl Hc L IH | r line r' res T Hl Hc V L IH
                  | r line r' T Hl Hc V]; simpl in *; auto.
  - destruct (visitLine_frame _ _ _ V) as (_ & _ & _ & _ & _ & _ & C). lia.
  - destruct (visitLine_frame _ _ _ V) as (_ & _ & _ & _ & _ & _ & C). lia.
Qed.

Local Abbreviation stamped := (stamped generateImageForLine now).

Lemma LoopRun_stamps r res :
  LoopRun r res ->
  forall i l l',
    lines r !! i = Some l -> status l <> completed ->
    lines (fst res) !! i = Some l' -> status l' = completed ->
    stamped (sessionBatchId (currentSession r)) (calls r) (calls (fst res)) l l'.
Proof.
  induction 1 as [r T | r line res T Hl Hc L IH | r line r' res T Hl Hc V L IH
                  | r line r' T Hl Hc V]; intros i l l' Hi Hn Hi' Hd.
  - simpl in Hi'. congruence.
  - apply (IH i l l'); assumption.
  - destruct (visitLine_frame _ _ _ V) as (_ & Fr & _ & _ & Bid & I & C).
    pose proof (LoopRun_calls_le _ _ L) as Cle.
    destruct (Nat.eq_dec i (resumeIndex r)) as [->|Hne].
    + rewrite (LoopRun_lines_behind _ _ L) in Hi' by lia.
      rewrite Hi in Hl. injection Hl as <-.
      visit_cases V; cbn [lines calls visitCompleted visitFailed] in *;
        rewrite !list_lookup_alter_eq, Hi in Hi'; simpl in Hi'; injection Hi' as <-.
      * exists (k + calls r), base64. simpl. repeat split; auto; lia.
      * simpl in Hd. discriminate.
    + rewrite <- (Fr i) in Hi by auto.
      destruct (IH i l l' Hi Hn Hi' Hd) as (n & b64 & H1 & H2 & H3).
      exists n, b64. rewrite <- Bid. repeat split; try tauto; lia.
  - simpl in *. destruct (visitLine_frame _ _ _ V) as (_ & Fr & _).
    destruct (Nat.eq_dec i (resumeIndex r)) as [->|Hne].
    + rewrite Hi in Hl. injection Hl as <-.
      visit_cases V. cbn [lines visitQuota] in Hi'.
      rewrite !list_lookup_alter_eq, Hi in Hi'. simpl in Hi'. injection Hi' as <-.
      simpl in Hd. discriminate.
    + rewrite Fr in Hi' by auto. congruence.
Qed.

(** X11: a line that was not completed before a run and is completed after
    it carries the payload returned by one successful service call of that
    run, the filename derived from its narration, the batch identifier of
    the run's session, the time of that call, and no error. *)
Theorem processBatch_stamps_completed st session i l l' :
  scriptLines st !! i = Some l -> status l <> completed ->
  scriptLines (afterBatch st session) !! i = Some l' -> status l' = completed ->
  stamped (sessionBatchId session) 0 (calls (processBatch st session)) l l'.
Proof.
  rewrite afterBatch_scriptLines. intros Hi Hn Hi' Hd.
  destruct (processBatch_shape st session) as [B|B F|start r B F L|start r B F L].
  - simpl in Hi'. congruence.
  - simpl in Hi'. congruence.
  - apply (LoopRun_stamps _ _ L i l l'); assumption.
  - rewrite afterLoop_lines in Hi'. rewrite afterLoop_calls.
    apply (LoopRun_stamps _ _ L i l l'); assumption.
Qed.

(** *** The order and number of service calls *)

Lemma orderedCalls_nil : orderedCalls [].
Proof. intros p q i j _ Hp. rewrite lookup_nil in Hp. discriminate. Qed.

Lemma orderedCalls_app_replicate c idx new :
  c <= 3 -> Forall (fun j => idx < j) new -> orderedCalls new ->
  orderedCalls (replicate c idx ++ new).
Proof.
  intros Hc Hnew Hord p q i j Hpq Hp Hq.
  destruct (Nat.lt_ge_cases q c) as [Hq'|Hq'].
  - rewrite lookup_app_l in Hp by (rewrite length_replicate; lia).
    rewrite lookup_app_l in Hq by (rewrite length_replicate; lia).
    apply lookup_replicate in Hp. apply lookup_replicate in Hq.
    destruct Hp as [-> _], Hq as [-> _]. split; lia.
  - rewrite lookup_app_r in Hq by (rewrite length_replicate; lia).
    rewrite length_replicate in Hq.
    destruct (Nat.lt_ge_cases p c) as [Hp'|Hp'].
    + rewrite lookup_app_l in Hp by (rewrite length_replicate; lia).
      apply lookup_replicate in Hp. destruct Hp as [-> _].
      rewrite Forall_lookup in Hnew. specialize (Hnew _ _ Hq). simpl in Hnew.
      split; lia.
    + rewrite lookup_app_r in Hp by (rewrite length_replicate; lia).
      rewrite length_replicate in Hp.
      destruct (Hord (p - c) (q - c) i j ltac:(lia) Hp Hq) as [H1 H2].
      split; [exact H1|]. intros H3. apply H2. lia.
Qed.

Lemma LoopRun_orderedCalls r res :
  LoopRun r res ->
  exists new,
    callLines (effects (fst res)) = callLines (effects r) ++ new
    /\ Forall (fun i => resumeIndex r <= i /\ i < length (lines r)) new
    /\ orderedCalls new
    /\ length new <= 3 * (length (lines r) - resumeIndex r).
Proof.
  induction 1 as [r T | r line res T Hl Hc L IH | r line r' res T Hl Hc V L IH
                  | r line r' T Hl Hc V].
  - exists []. simpl. rewrite app_nil_r.
    split; [reflexivity|]. split; [constructor|].
    split; [apply orderedCalls_nil | lia].
  - destruct IH as (new & E & F & O & B). exists new. simpl in *.
    split; [exact E|]. split; [|split; [exact O | lia]].
    eapply Forall_impl; [exact F|]. simpl. intros; lia.
  - destruct IH as (new & E & F & O & B).
    destruct (visitLine_callLines _ _ _ V) as (E' & C1 & C2).
    destruct (visitLine_frame _ _ _ V) as (Len & _ & _ & _ & _ & I & _).
    destruct (loopTest_true _ T) as [Hi _].
    rewrite Len, I in *.
    exists (replicate (calls r' - calls r) (resumeIndex r) ++ new).
    rewrite E, E', <- app_assoc. split; [reflexivity|]. split; [|split].
    + apply Forall_app. split.
      * apply Forall_replicate. lia.
      * eapply Forall_impl; [exact F|]. simpl. intros; lia.
    + apply orderedCalls_app_replicate; [lia| |exact O].
      eapply Forall_impl; [exact F|]. simpl. intros; lia.
    + rewrite length_app, length_replicate. lia.
  - destruct (visitLine_callLines _ _ _ V) as (E' & C1 & C2).
    destruct (loopTest_true _ T) as [Hi _].
    exists (replicate (calls r' - calls r) (resumeIndex r) ++ []).
    simpl fst. rewrite app_nil_r, E'. split; [reflexivity|]. split; [|split].
    + apply Forall_replicate. lia.
    + rewrite <- (app_nil_r (replicate _ _)).
      apply orderedCalls_app_replicate; [lia | constructor | apply orderedCalls_nil].
    + rewrite length_replicate. lia.
Qed.

Lemma LoopRun_callCount r res :
  LoopRun r res ->
  length (callLines (effects r)) = calls r ->
  length (callLines (effects (fst res))) = calls (fst res).
Proof.
  induction 1 as [r T | r line res T Hl Hc L IH | r line r' res T Hl Hc V L IH
                  | r line r' T Hl Hc V]; intros C; simpl; auto.
  - apply IH. eapply visitLine_callCount; eassumption.
  - eapply visitLine_callCount; eassumption.
Qed.

(** X12: the service is called for lines in document order, never for an
    index outside the script, at most three times for any line, and so at
    most three times the number of lines in one run. *)
Theorem processBatch_calls_in_order st session :
  orderedCalls (callLines (effects (processBatch st session)))
  /\ Forall (fun i => i < length (scriptLines st))
            (callLines (effects (processBatch st session)))
  /\ length (callLines (effects (processBatch st session)))
     = calls (processBatch st session)
  /\ calls (processBatch st session) <= 3 * length (scriptLines st).
Proof.
  assert (H : forall start r b,
             LoopRun (enterLoop st session start) (r, b) ->
             orderedCalls (callLines (effects r))
             /\ Forall (fun i => i < length (scriptLines st)) (callLines (effects r))
             /\ length (callLines (effects r)) = calls r
             /\ calls r <= 3 * length (scriptLines st)).
  { intros start r b L.
    pose proof (LoopRun_callCount _ _ L eq_refl) as C.
    destruct (LoopRun_orderedCalls _ _ L) as (new & E & F & O & B).
    simpl in *. rewrite E in *.
    split; [exact O|]. split; [|split; [exact C | lia]].
    eapply Forall_impl; [exact F|]. simpl. intros; lia. }
  destruct (processBatch_shape st session) as [B|B F|start r B F L|start r B F L].
  - simpl. split; [apply orderedCalls_nil|]. split; [constructor|].
    split; [reflexivity | lia].
  - simpl. split; [apply orderedCalls_nil|]. split; [constructor|].
    split; [reflexivity | lia].
  - apply (H start r true L).
  - destruct (afterLoop_effects r) as (es & -> & N).
    rewrite afterLoop_calls, callLines_app.
    destruct (neutral_trace session es N) as (_ & _ & ->). rewrite app_nil_r.
    apply (H start r false L).
Qed.

(** *** How a run ends *)

Lemma afterLoop_prompts st r :
  (exists j l, lines r !! j = Some l /\ status l = pending) ->
  limit (currentSession r) <= used (currentSession r) ->
  showKeyModal (apply_effects (effects (afterLoop r)) st) = true
  /\ tempKey (apply_effects (effects (afterLoop r)) st) = ""%string
  /\ isProcessingBatch (apply_effects (effects (afterLoop r)) st) = false.
Proof.
  intros (j & l & Hj & Hp) Hu. unfold afterLoop. cbn [lines emit currentSession].
  destruct (findIndex isPending (lines r)) eqn:F.
  - assert (E : (limit (currentSession r) <=? used (currentSession r)) = true)
      by now apply Nat.leb_le.
    rewrite E. cbn [effects emit]. rewrite <- !app_assoc, apply_effects_app.
    repeat split.
  - pose proof (findIndex_None _ _ F j l Hj) as Hn. unfold isPending in Hn.
    rewrite Hp in Hn. discriminate.
Qed.

(** X13: a run that is not refused as re-entrant and leaves a pending line
    never ends silently: the key dialog is open, the key field is empty and
    the run flag is cleared. *)
Theorem processBatch_asks_for_key_when_work_remains st session :
  isProcessingBatch st = false ->
  (exists j l, scriptLines (afterBatch st session) !! j = Some l /\ status l = pending) ->
  showKeyModal (afterBatch st session) = true
  /\ tempKey (afterBatch st session) = ""%string
  /\ isProcessingBatch (afterBatch st session) = false.
Proof.
  intros B. rewrite afterBatch_scriptLines. intros (j & l & Hj & Hp).
  unfold afterBatch.
  destruct (processBatch_shape st session) as [B'|B' F|start r B' F L|start r B' F L].
  - congruence.
  - pose proof (findIndex_None _ _ F j l Hj) as Hn. unfold needsWork in Hn.
    rewrite Hp in Hn. discriminate.
  - pose proof (LoopRun_quota _ _ L) as Q. simpl in Q.
    destruct Q as (r1 & k & m & -> & _).
    cbn [effects visitQuota]. rewrite !app_assoc, apply_effects_app. repeat split.
  - rewrite afterLoop_lines in Hj.
    destruct (LoopRun_behind _ _ L eq_refl (enterLoop_behind st session start F))
      as [T Hb]. simpl in T, Hb.
    apply afterLoop_prompts; [eauto|].
    unfold loopTest in T. apply andb_false_iff in T. destruct T as [T|T].
    + apply Nat.ltb_ge in T. exfalso. apply (Hb j l); auto.
      apply lookup_lt_Some in Hj. lia.
    + now apply Nat.ltb_ge in T.
Qed.

(** X14: a run that is not refused and has budget left begins with a call
    for the first line that is pending or failed, so a failed line is tried
    again before any later line. *)
Theorem processBatch_resumes_at_first_unfinished st session start :
  isProcessingBatch st = false ->
  findIndex needsWork (scriptLines st) = Some start ->
  used session < limit session ->
  callLines (effects (processBatch st session)) !! 0 = Some start.
Proof.
  intros B F U.
  destruct (findIndex_Some _ _ _ F) as [(x & Hx & Px) _].
  assert (T : loopTest (enterLoop st session start) = true).
  { unfold loopTest. simpl. apply andb_true_iff. split; apply Nat.ltb_lt; [|exact U].
    now apply lookup_lt_Some in Hx. }
  assert (Hnc : status x <> completed).
  { unfold needsWork in Px. intros E. rewrite E in Px. discriminate. }
  assert (H : forall r b, LoopRun (enterLoop st session start) (r, b) ->
                          callLines (effects r) !! 0 = Some start).
  { intros r b L.
    inversion L as [r0 T0 | r0 line0 res0 T0 Hl0 Hc0 L0
                    | r0 line0 r3 res0 T0 Hl0 Hc0 V0 L0
                    | r0 line0 r3 T0 Hl0 Hc0 V0]; subst.
    - congruence.
    - simpl in Hl0. rewrite Hx in Hl0. injection Hl0 as <-. contradiction.
    - destruct (visitLine_starts _ _ _ V0) as (ls & msg & rest & E).
      destruct (LoopRun_effects _ _ L0) as (es & E'). simpl in E'.
      rewrite E', E. reflexivity.
    - destruct (visitLine_starts _ _ _ V0) as (ls & msg & rest & E).
      rewrite E. reflexivity. }
  destruct (processBatch_shape st session) as [B'|B' F'|s r B' F' L|s r B' F' L].
  - congruence.
  - congruence.
  - assert (s = start) by congruence. subst s. apply (H r true L).
  - assert (s = start) by congruence. subst s.
    destruct (afterLoop_effects r) as (es & -> & N).
    rewrite callLines_app, lookup_app_l; [apply (H r false L)|].
    pose proof (H r false L) as H0. apply lookup_lt_Some in H0. exact H0.
Qed.

Lemma processBatch_clears_flag st session :
  isProcessingBatch st = false -> isProcessingBatch (afterBatch st session) = false.
Proof.
  intros B. unfold afterBatch.
  destruct (processBatch_shape st session) as [B'|B' F|start r B' F L|start r B' F L].
  - exact B.
  - reflexivity.
  - pose proof (LoopRun_quota _ _ L) as Q. simpl in Q.
    destruct Q as (r1 & k & m & -> & _).
    cbn [effects visitQuota]. rewrite !app_assoc, apply_effects_app. reflexivity.
  - unfold afterLoop. cbn [lines emit currentSession].
    destruct (findIndex isPending (lines r)); [destruct (_ <=? _)|];
      cbn [effects emit]; rewrite <- ?app_assoc, apply_effects_app; reflexivity.
Qed.

Lemma pending_and_terminal ls :
  existsb isPending ls = true -> forallb isTerminal ls = false.
Proof.
  induction ls as [|l ls IH]; simpl; [discriminate|].
  unfold isPending, isTerminal in *. destruct (status l); simpl; auto.
Qed.

Lemma settled_pending_or_terminal ls :
  settled ls -> existsb isPending ls = negb (forallb isTerminal ls).
Proof.
  induction 1 as [|l ls Hl _ IH]; simpl; [reflexivity|].
  unfold isPending, isTerminal in *. destruct (status l); simpl; auto.
Qed.

(** X15: the dashboard never offers "Resume Generation" and "Next: Audio
    Sync" together, and after a run that started from lines of which none
    was generating it offers exactly one of them during image generation. *)
Theorem dashboard_offers_one_way_forward st session :
  settled (scriptLines st) -> isProcessingBatch st = false ->
  (forall stg st', canResume stg st' = true -> canAdvanceToSync stg st' = false)
  /\ canResume IMAGE_GENERATION (afterBatch st session)
     = negb (canAdvanceToSync IMAGE_GENERATION (afterBatch st session)).
Proof.
  intros Hs B. split.
  - intros stg st'. unfold canResume, canAdvanceToSync.
    rewrite !andb_true_iff. intros [[_ _] Hp].
    rewrite (pending_and_terminal _ Hp). now rewrite andb_false_r.
  - unfold canResume, canAdvanceToSync.
    rewrite (processBatch_clears_flag st session B). simpl.
    rewrite andb_true_r. apply settled_pending_or_terminal.
    rewrite afterBatch_scriptLines. now apply processBatch_settled.
Qed.

(** *** A service that always answers with an image *)

Lemma countIf_alter {A} (p : A -> bool) (f : A -> A) i x (l : list A) :
  l !! i = Some x -> p x = true -> p (f x) = false ->
  countIf p l = S (countIf p (alter f i l)).
Proof.
  revert i; induction l as [|y l IH]; intros [|i]; simpl; try discriminate.
  - intros [= ->] H1 H2. now rewrite H1, H2.
  - intros Hi H1 H2. destruct (p y); simpl; [f_equal|]; exact (IH i Hi H1 H2).
Qed.

Lemma LoopRun_all_ok r res :
  (forall n, isOk (generateImageForLine n) = true) ->
  LoopRun r res ->
  snd res = false
  /\ used (currentSession (fst res))
     = used (currentSession r)
       + Nat.min (limit (currentSession r) - used (currentSession r))
                 (countIf notCompleted (drop (resumeIndex r) (lines r)))
  /\ calls (fst res)
     = calls r
       + Nat.min (limit (currentSession r) - used (currentSession r))
                 (countIf notCompleted (drop (resumeIndex r) (lines r)))
  /\ countIf notCompleted (lines (fst res))
     + Nat.min (limit (currentSession r) - used (currentSession r))
               (countIf notCompleted (drop (resumeIndex r) (lines r)))
     = countIf notCompleted (lines r).
Proof.
  intros Hok.
  induction 1 as [r T | r line res T Hl Hc L IH | r line r' res T Hl Hc V L IH
                  | r line r' T Hl Hc V].
  - simpl. unfold loopTest in T. apply andb_false_iff in T. destruct T as [T|T].
    + apply Nat.ltb_ge in T. rewrite drop_ge by exact T. simpl.
      rewrite Nat.min_0_r. repeat split; lia.
    + apply Nat.ltb_ge in T.
      replace (limit (currentSession r) - used (currentSession r)) with 0 by lia.
      simpl. repeat split; lia.
  - assert (Hn : notCompleted line = false)
      by (unfold notCompleted; rewrite Hc; reflexivity).
    simpl in IH. rewrite (drop_S _ _ _ Hl). cbn [countIf].
    rewrite Hn, !Nat.add_0_l. exact IH.
  - destruct (loopTest_true _ T) as [Hi Hu].
    assert (Hn : notCompleted line = true).
    { unfold notCompleted. destruct (Status_eqb (status line) completed) eqn:E;
        [apply Status_eqb_eq in E; contradiction | reflexivity]. }
    visit_cases V.
    + assert (k = 0) as ->.
      { destruct k as [|k]; [reflexivity|]. destruct (HF 0) as [m Hm]; [lia|].
        specialize (Hok (0 + calls r)). rewrite Hm in Hok. discriminate. }
      destruct IH as (I1 & I2 & I3 & I4).
      cbn [lines currentSession resumeIndex calls visitCompleted used limit] in *.
      rewrite drop_alter_lt, drop_alter_lt in I2, I3, I4 by lia.
      rewrite (drop_S _ _ _ Hl). simpl countIf. rewrite Hn.
      rewrite list_alter_alter_eq in I4.
      rewrite (countIf_alter notCompleted
                 (markCompleted base64 (sessionBatchId (currentSession r))
                                (now (0 + calls r)) ∘ markGenerating)
                 _ _ _ Hl Hn eq_refl).
      split; [exact I1|]. repeat split; lia.
    + specialize (Hok (2 + calls r)). rewrite HE in Hok. discriminate.
  - visit_cases V. specialize (Hok (k + calls r)). rewrite HE in Hok. discriminate.
Qed.

(** X16: when every call of the service returns an image, a run that is not
    refused completes exactly as many lines as the smaller of the budget
    left and the number of lines not yet completed from the resume point on,
    with one call per line, and the counter grows by that number. *)
Theorem processBatch_completes_up_to_budget st session start :
  (forall n, isOk (generateImageForLine n) = true) ->
  isProcessingBatch st = false ->
  findIndex needsWork (scriptLines st) = Some start ->
  exists m,
    m = Nat.min (limit session - used session)
                (countIf notCompleted (drop start (scriptLines st)))
    /\ used (currentSession (processBatch st session)) = used session + m
    /\ calls (processBatch st session) = m
    /\ countIf notCompleted (scriptLines (afterBatch st session)) + m
       = countIf notCompleted (scriptLines st).
Proof.
  intros Hok B F. rewrite afterBatch_scriptLines. eexists. split; [reflexivity|].
  destruct (processBatch_shape st session) as [B'|B' F'|s r B' F' L|s r B' F' L];
    try congruence.
  - destruct (LoopRun_all_ok _ _ Hok L) as (H & _). discriminate.
  - assert (s = start) by congruence. subst s.
    destruct (LoopRun_all_ok _ _ Hok L) as (_ & H1 & H2 & H3).
    rewrite afterLoop_session, afterLoop_calls, afterLoop_lines.
    simpl in *. repeat split; assumption.
Qed.

(** *** Facts the key handler needs about the run it starts *)

Lemma LoopRun_session_fixed r res :
  LoopRun r res ->
  key (currentSession (fst res)) = key (currentSession r)
  /\ sessionBatchId (currentSession (fst res)) = sessionBatchId (currentSession r).
Proof.
  induction 1 as [r T | r line res T Hl Hc L IH | r line r' res T Hl Hc V L IH
                  | r line r' T Hl Hc V]; simpl; auto.
  - destruct (visitLine_frame _ _ _ V) as (_ & _ & K & _ & Bid & _).
    destruct IH as [IH1 IH2]. split; congruence.
  - destruct (visitLine_frame _ _ _ V) as (_ & _ & K & _ & Bid & _). now split.
Qed.

Lemma processBatch_session_fixed st session :
  key (currentSession (processBatch st session)) = key session
  /\ sessionBatchId (currentSession (processBatch st session)) = sessionBatchId session.
Proof.
  destruct (processBatch_shape st session) as [B|B F|start r B F L|start r B F L];
    try (now split).
  - apply LoopRun_session_fixed in L. exact L.
  - rewrite afterLoop_session. apply LoopRun_session_fixed in L. exact L.
Qed.

(** The lines shown after a run do not depend on what else the state held
    when the effects were applied. *)
Lemma processBatch_shown st0 st session :
  scriptLines st0 = scriptLines st ->
  scriptLines (apply_effects (effects (processBatch st session)) st0)
  = lines (processBatch st session).
Proof.
  intros E.
  destruct (processBatch_shape st session) as [B|B F|start r B F L|start r B F L];
    try exact E.
  - apply (LoopRun_shown st0) in L; [exact L | exact E].
  - apply afterLoop_shown. apply (LoopRun_shown st0) in L; [exact L | exact E].
Qed.

Lemma apiKeySession_after es :
  forall st s, apiKeySession st = Some s ->
               apiKeySession (apply_effects es st) = Some (sessionAt s es).
Proof.
  induction es as [|e es IH]; intros st s H; [exact H|].
  unfold apply_effects in *. destruct e; simpl; apply IH; simpl; auto.
Qed.

End ControllerFacts.

(** ** The claims on concrete runs *)

(** The specification's scenario: budget 2 and five pending lines give two
    completed lines and three still pending. *)
Example budget_two_of_five :
  map status (lines budgetTwoRun) = [completed; completed; pending; pending; pending]
  /\ used (currentSession budgetTwoRun) = 2
  /\ callLines (effects budgetTwoRun) = [0; 1].
Proof. repeat split. Qed.

Lemma C1_quota_exhaustion_witness :
  (0 < calls quotaRun /\ quotaService 0 = GenQuotaError "RESOURCE_EXHAUSTED")
  /\ 1 = calls quotaRun
  /\ map status (lines quotaRun) = [pending; pending]
  /\ tempKey (afterBatch quotaService clock (readyState (newSession "key-1" 5 1) twoLines)
                         (newSession "key-1" 5 1)) = ""%string
  /\ showKeyModal (afterBatch quotaService clock
                              (readyState (newSession "key-1" 5 1) twoLines)
                              (newSession "key-1" 5 1)) = true.
Proof.
  assert (H0 : 0 < calls quotaRun) by (vm_compute; lia).
  assert (H1 : quotaService 0 = GenQuotaError "RESOURCE_EXHAUSTED") by reflexivity.
  destruct (C1_quota_exhaustion quotaService clock
              (readyState (newSession "key-1" 5 1) twoLines) (newSession "key-1" 5 1)
              0 "RESOURCE_EXHAUSTED" H0 H1)
    as (Hlast & _ & _ & _ & _ & Hkey & Hmodal & _).
  split; [split; [exact H0 | exact H1]|].
  split; [exact Hlast|]. split; [reflexivity|]. split; [exact Hkey | exact Hmodal].
Defined.

Lemma C2_budget_never_exceeded_witness :
  used (newSession "key-1" 2 1) <= limit (newSession "key-1" 2 1)
  /\ used (currentSession budgetTwoRun) <= 2
  /\ used (currentSession budgetTwoRun) = 2.
Proof.
  assert (H0 : used (newSession "key-1" 2 1) <= limit (newSession "key-1" 2 1))
    by (simpl; lia).
  destruct (C2_budget_never_exceeded okService clock
              (readyState (newSession "key-1" 2 1) fiveLines) (newSession "key-1" 2 1) H0)
    as (_ & _ & Hle & _ & Hexact).
  split; [exact H0|]. split; [exact Hle|].
  apply Hexact.
  - reflexivity.
  - intros n _. reflexivity.
  - exists 2. eexists. split; [vm_compute; reflexivity | reflexivity].
Defined.

Lemma C5_three_failed_attempts_witness :
  (callLines (effects budgetOneRun) !! 0 = Some 0
   /\ callLines (effects budgetOneRun) !! 1 = Some 0
   /\ callLines (effects budgetOneRun) !! 2 = Some 0
   /\ flakyService 0 = GenError "timeout"
   /\ flakyService 1 = GenError "timeout"
   /\ flakyService 2 = GenError "timeout")
  /\ exists l, lines budgetOneRun !! 0 = Some l
               /\ status l = failed /\ error l = Some "timeout"%string.
Proof.
  split; [repeat split|].
  exact (proj1 (C5_three_failed_attempts flakyService clock
                  (readyState (newSession "key-1" 1 1) twoLines) (newSession "key-1" 1 1)
                  0 0 "timeout" "timeout" "timeout"
                  eq_refl eq_refl eq_refl eq_refl eq_refl eq_refl)).
Defined.

(** C5, as the specification words it, fails on the message: the error text
    is the message of the third error, and that message can be empty. *)
Lemma C5_error_message_can_be_empty :
  callLines (effects silentRun) = [0; 0; 0; 1; 1; 1]
  /\ (silentService 0, silentService 1, silentService 2)
     = (GenError "", GenError "", GenError "")
  /\ map (fun l => (status l, error l)) (lines silentRun)
     = [(failed, Some ""%string); (failed, Some ""%string)].
Proof. repeat split. Qed.

Lemma C6_no_line_left_generating_witness :
  settled (scriptLines (readyState (newSession "key-1" 5 1) twoLines))
  /\ settled (scriptLines (afterBatch quotaService clock
                                      (readyState (newSession "key-1" 5 1) twoLines)
                                      (newSession "key-1" 5 1)))
  /\ map status (scriptLines (afterBatch quotaService clock
                                         (readyState (newSession "key-1" 5 1) twoLines)
                                         (newSession "key-1" 5 1)))
     = [pending; pending].
Proof.
  assert (H0 : settled (scriptLines (readyState (newSession "key-1" 5 1) twoLines)))
    by (simpl; apply parseScript_settled).
  split; [exact H0|]. split; [|reflexivity].
  exact (proj1 (C6_no_line_left_generating quotaService clock _ _ H0)).
Defined.

Lemma C10_completed_lines_unchanged_witness :
  (exists l, scriptLines secondState !! 1 = Some l /\ status l = completed
             /\ batchId l = Some 1
             /\ lines (processBatch okService clock secondState (newSession "key-2" 3 2)) !! 1
                = Some l)
  /\ map status (lines (processBatch okService clock secondState (newSession "key-2" 3 2)))
     = [completed; completed]
  /\ map batchId (lines (processBatch okService clock secondState (newSession "key-2" 3 2)))
     = [Some 2; Some 1].
Proof.
  split; [|split; reflexivity].
  destruct (scriptLines secondState !! 1) as [l|] eqn:E; [|discriminate E].
  assert (Hc : status l = completed)
    by (vm_compute in E; injection E as <-; reflexivity).
  assert (Hb : batchId l = Some 1)
    by (vm_compute in E; injection E as <-; reflexivity).
  exists l. split; [reflexivity|]. split; [exact Hc|]. split; [exact Hb|].
  exact (proj1 (C10_completed_lines_unchanged okService clock secondState
                  (newSession "key-2" 3 2) 1 l E Hc)).
Defined.

(** * Further properties of the code *)

(** ** The log *)

(** X1: [addLog] keeps the newest message last, drops only the oldest
    messages, and never lets the log grow beyond ten entries. *)
Theorem addLog_keeps_last_ten (msg : string) (prev : list string) :
  length (addLog msg prev) = Nat.min (length prev) 9 + 1
  /\ length (addLog msg prev) <= 10
  /\ last (addLog msg prev) = Some msg
  /\ prev ++ [msg] = take (length prev - 9) prev ++ addLog msg prev.
Proof.
  unfold addLog. rewrite length_app, length_drop. simpl.
  repeat split; try lia.
  - apply last_snoc.
  - now rewrite app_assoc, take_drop.
Qed.

(** ** Derived filenames, continued *)

Lemma fileNameChar_made c : isFileNameChar (replaceNonAlnum (Js.lowerChar c)) = true.
Proof.
  unfold isFileNameChar, replaceNonAlnum.
  destruct (isLowerAlnum (Js.lowerChar c)) eqn:E; [now rewrite E | reflexivity].
Qed.

Lemma fileNameChar_kept c :
  isFileNameChar c = true -> replaceNonAlnum (Js.lowerChar c) = c.
Proof.
  destruct c as [[] [] [] [] [] [] [] []]; vm_compute; congruence.
Qed.

Lemma allChars_slice0 p n s : allChars p s = true -> allChars p (Js.slice0 n s) = true.
Proof.
  revert s; induction n as [|n IH]; intros [|c s]; simpl; auto.
  rewrite !andb_true_iff. intros [H1 H2]. auto.
Qed.

Lemma slice0_short n s : String.length s <= n -> Js.slice0 n s = s.
Proof.
  revert s; induction n as [|n IH]; intros [|c s]; simpl; intros H; auto; try lia.
  rewrite IH; [reflexivity | lia].
Qed.

Lemma mapChars_fixed f p s :
  (forall c, p c = true -> f c = c) -> allChars p s = true -> Js.mapChars f s = s.
Proof.
  intros Hf. induction s as [|c s IH]; simpl; [reflexivity|].
  rewrite andb_true_iff. intros [H1 H2]. now rewrite Hf, IH.
Qed.

Lemma mapChars_compose f g s :
  Js.mapChars f (Js.mapChars g s) = Js.mapChars (fun c => f (g c)) s.
Proof. induction s as [|c s IH]; simpl; [reflexivity | now rewrite IH]. Qed.

Lemma allChars_mapChars p f s :
  (forall c, p (f c) = true) -> allChars p (Js.mapChars f s) = true.
Proof. intros H. induction s as [|c s IH]; simpl; [reflexivity | now rewrite H, IH]. Qed.

Lemma sanitizeFilename_chars text : allChars isFileNameChar (sanitizeFilename text) = true.
Proof.
  unfold sanitizeFilename, Js.toLowerCase. apply allChars_slice0.
  rewrite mapChars_compose. apply allChars_mapChars. apply fileNameChar_made.
Qed.

(** X2: a sanitised name consists of the characters a-z, 0-9 and underscore
    only, is at most 50 characters long, and sanitising it again changes
    nothing. *)
Theorem sanitizeFilename_safe_and_stable (text : string) :
  allChars isFileNameChar (sanitizeFilename text) = true
  /\ String.length (sanitizeFilename text) <= 50
  /\ sanitizeFilename (sanitizeFilename text) = sanitizeFilename text.
Proof.
  pose proof (sanitizeFilename_chars text) as Hc.
  assert (Hl : String.length (sanitizeFilename text) <= 50).
  { unfold sanitizeFilename. rewrite length_slice0. lia. }
  split; [exact Hc|]. split; [exact Hl|].
  unfold sanitizeFilename at 1. unfold Js.toLowerCase. rewrite mapChars_compose.
  rewrite (mapChars_fixed _ isFileNameChar _ fileNameChar_kept Hc).
  now apply slice0_short.
Qed.

(** ** Script parser, continued *)

Lemma trimStart_head s :
  Js.trimStart s = EmptyString
  \/ exists c t, Js.trimStart s = String c t /\ Js.isWhiteSpace c = false.
Proof.
  induction s as [|c s IH]; simpl; [now left|].
  destruct (Js.isWhiteSpace c) eqn:E; [exact IH|]. right. eauto.
Qed.

Lemma trimEnd_head c t :
  Js.isWhiteSpace c = false -> exists t', Js.trimEnd (String c t) = String c t'.
Proof.
  intros E. simpl. destruct (Js.trimEnd t); [rewrite E|]; eauto.
Qed.

Lemma trimEnd_idem s : Js.trimEnd (Js.trimEnd s) = Js.trimEnd s.
Proof.
  induction s as [|c s IH]; simpl; [reflexivity|].
  destruct (Js.trimEnd s) as [|d t] eqn:E.
  - destruct (Js.isWhiteSpace c) eqn:W; simpl; [reflexivity | now rewrite W].
  - change (Js.trimEnd (String c (String d t))) with
      (match Js.trimEnd (String d t) with
       | EmptyString => if Js.isWhiteSpace c then EmptyString else String c EmptyString
       | u => String c u
       end).
    now rewrite IH.
Qed.

(** [trim] returns a string that [trim] leaves alone. *)
Lemma trim_idem s : Js.trim (Js.trim s) = Js.trim s.
Proof.
  unfold Js.trim.
  destruct (trimStart_head s) as [E | (c & t & E & W)]; rewrite E.
  - reflexivity.
  - destruct (trimEnd_head c t W) as (t' & E'). rewrite E'.
    simpl Js.trimStart. rewrite W. rewrite <- E'. apply trimEnd_idem.
Qed.

Lemma indexOf_None_trimStart c s :
  Js.indexOf c s = None -> Js.indexOf c (Js.trimStart s) = None.
Proof.
  induction s as [|d s IH]; simpl; [auto|].
  destruct (Ascii.eqb d c) eqn:E; [discriminate|].
  destruct (Js.indexOf c s) eqn:I; [discriminate|]. intros _.
  destruct (Js.isWhiteSpace d); [now apply IH|]. simpl. now rewrite E, I.
Qed.

Lemma indexOf_None_trimEnd c s :
  Js.indexOf c s = None -> Js.indexOf c (Js.trimEnd s) = None.
Proof.
  induction s as [|d s IH]; simpl; [auto|].
  destruct (Ascii.eqb d c) eqn:E; [discriminate|].
  destruct (Js.indexOf c s) eqn:I; [discriminate|]. intros _.
  specialize (IH eq_refl).
  destruct (Js.trimEnd s) as [|e t].
  - destruct (Js.isWhiteSpace d); simpl; [reflexivity | now rewrite E].
  - simpl in *. rewrite E. now rewrite IH.
Qed.

Lemma indexOf_None_trim c s : Js.indexOf c s = None -> Js.indexOf c (Js.trim s) = None.
Proof. intros H. now apply indexOf_None_trimEnd, indexOf_None_trimStart. Qed.

Lemma indexOf_slice0 c s p :
  Js.indexOf c s = Some p -> Js.indexOf c (Js.slice0 p s) = None.
Proof.
  revert p; induction s as [|d s IH]; intros p; simpl; [discriminate|].
  destruct (Ascii.eqb d c) eqn:E.
  - intros [= <-]. reflexivity.
  - destruct (Js.indexOf c s) as [q|]; [|discriminate].
    intros [= <-]. simpl. rewrite E. now rewrite (IH q eq_refl).
Qed.

(** X3: whatever the line, the narration and the prompt of its record carry
    no leading or trailing whitespace, and the narration contains no
    delimiter. *)
Theorem parseLine_fields_clean (idx : nat) (line : string) :
  Js.trim (spokenText (parseLine idx line)) = spokenText (parseLine idx line)
  /\ Js.trim (imagePrompt (parseLine idx line)) = imagePrompt (parseLine idx line)
  /\ Js.indexOf pipe (spokenText (parseLine idx line)) = None.
Proof.
  unfold parseLine. destruct (Js.indexOf pipe line) as [p|] eqn:E; simpl.
  - repeat split; try apply trim_idem.
    apply indexOf_None_trim. now apply indexOf_slice0.
  - repeat split; try apply trim_idem; try reflexivity.
    now apply indexOf_None_trim.
Qed.

Lemma showNat_inj a b : Js.showNat a = Js.showNat b -> a = b.
Proof.
  unfold Js.showNat. intros H.
  apply (f_equal NilEmpty.uint_of_string) in H. rewrite !NilEmpty.usu in H.
  injection H as H. apply (f_equal Nat.of_uint) in H.
  now rewrite !DecimalNat.Unsigned.of_to in H.
Qed.

Lemma parseScript_ids text i j a b :
  parseScript text !! i = Some a -> parseScript text !! j = Some b ->
  id a = id b -> i = j.
Proof.
  rewrite !parseScript_lookup.
  destruct (scriptRows text !! i) as [ri|]; simpl; [|discriminate].
  destruct (scriptRows text !! j) as [rj|]; simpl; [|discriminate].
  intros [= <-] [= <-]. unfold parseLine.
  destruct (Js.indexOf pipe ri), (Js.indexOf pipe rj); simpl;
    intros H; injection H as H; now apply showNat_inj.
Qed.

(** X4: the records of a parsed script have pairwise different identifiers,
    and each record starts as a pending line without image, filename, batch
    or error, made from a line that is not blank. *)
Theorem parseScript_records (text : string) :
  NoDup (map id (parseScript text))
  /\ Forall (fun l => status l = pending /\ wellFormedLine l /\ error l = None
                      /\ nonBlank (originalText l) = true)
            (parseScript text).
Proof.
  split.
  - apply NoDup_alt. intros i j x Hi Hj.
    rewrite list_lookup_fmap in Hi, Hj.
    destruct (parseScript text !! i) as [a|] eqn:Ea; simpl in Hi; [|discriminate].
    destruct (parseScript text !! j) as [b|] eqn:Eb; simpl in Hj; [|discriminate].
    apply (parseScript_ids text i j a b Ea Eb). congruence.
  - apply Forall_lookup. intros i l Hl. rewrite parseScript_lookup in Hl.
    destruct (scriptRows text !! i) as [row|] eqn:Er; simpl in Hl; [|discriminate].
    injection Hl as <-.
    assert (Hnb : nonBlank row = true).
    { apply list_elem_of_lookup_2 in Er. unfold scriptRows in Er.
      apply list_elem_of_filter in Er. destruct Er as [Er _].
      now apply Is_true_true in Er. }
    unfold parseLine, wellFormedLine.
    destruct (Js.indexOf pipe row); simpl; repeat split; auto.
Qed.

(** ** Timeline normalisation, continued *)

Section NormalisationMore.

Local Open Scope Q_scope.

Lemma normalizeEntry_end_ge lastEnd t : endTime t <= endTime (normalizeEntry lastEnd t).
Proof.
  pose proof (normalizeEntry_start lastEnd t) as (_ & Hs & _).
  unfold normalizeEntry in *; simpl in *.
  set (start := if Qlt_bool (startTime t) lastEnd then lastEnd else startTime t) in *.
  destruct (Qle_bool (endTime t) (start + MIN_IMAGE_DURATION)) eqn:E.
  - apply Qle_bool_iff in E.
    destruct (Qeq_bool (endTime t) 0);
      unfold fallbackDurationPerSlide, MIN_IMAGE_DURATION in *; lra.
  - lra.
Qed.

Lemma normalizeEntry_kept lastEnd t :
  0 <= lastEnd -> lastEnd <= startTime t ->
  startTime t + MIN_IMAGE_DURATION <= endTime t ->
  sameEntry (normalizeEntry lastEnd t) t.
Proof.
  intros H0 H1 H2. unfold sameEntry, normalizeEntry; simpl.
  assert (E : Qlt_bool (startTime t) lastEnd = false).
  { destruct (Qlt_bool (startTime t) lastEnd) eqn:E; [|reflexivity].
    apply Qlt_bool_iff in E. lra. }
  rewrite E. repeat split; try reflexivity.
  destruct (Qle_bool (endTime t) (startTime t + MIN_IMAGE_DURATION)) eqn:E1;
    [|reflexivity].
  apply Qle_bool_iff in E1.
  assert (E2 : Qeq_bool (endTime t) 0 = false).
  { destruct (Qeq_bool (endTime t) 0) eqn:E2; [|reflexivity].
    apply Qeq_bool_iff in E2. unfold MIN_IMAGE_DURATION in *. lra. }
  rewrite E2. lra.
Qed.

Lemma normalizeFrom_kept tl :
  forall lastEnd e, 0 <= lastEnd -> lastEnd <= e -> consistentFrom e tl ->
                    Forall2 sameEntry (normalizeFrom lastEnd tl) tl.
Proof.
  induction tl as [|t tl IH]; intros lastEnd e H0 H1 Hc; simpl; [constructor|].
  destruct Hc as (Hs & Hd & Hc).
  assert (Hk : sameEntry (normalizeEntry lastEnd t) t)
    by (apply normalizeEntry_kept; lra).
  constructor; [exact Hk|].
  apply (IH _ (endTime t)); [| |exact Hc].
  - apply normalizeEntry_end_nonneg. exact H0.
  - destruct Hk as (_ & _ & _ & _ & _ & He). apply Qle_lteq. right. exact He.
Qed.

Lemma normalizeFrom_consistent tl :
  forall lastEnd, consistentFrom lastEnd (normalizeFrom lastEnd tl).
Proof.
  induction tl as [|t tl IH]; intros lastEnd; cbn [normalizeFrom consistentFrom];
    [exact I|].
  pose proof (normalizeEntry_start lastEnd t) as (Hs & _).
  pose proof (normalizeEntry_duration lastEnd t) as Hd.
  split; [exact Hs|]. split; [lra | apply IH].
Qed.

Lemma normalizeFrom_delays tl :
  forall lastEnd,
    Forall2 (fun out inp =>
               startTime inp <= startTime out /\ endTime inp <= endTime out
               /\ entryId out = entryId inp /\ scriptLineId out = scriptLineId inp
               /\ text out = text inp /\ image out = image inp)
            (normalizeFrom lastEnd tl) tl.
Proof.
  induction tl as [|t tl IH]; intros lastEnd; simpl; constructor; [|apply IH].
  pose proof (normalizeEntry_start lastEnd t) as (_ & Hs & _).
  pose proof (normalizeEntry_end_ge lastEnd t) as He.
  repeat split; assumption.
Qed.

End NormalisationMore.

(** X5: hints that are already consistent (the first start is not negative,
    every start is at or after the previous end, every entry lasts at least
    0.8 s) come out of the sweep with the same starts and ends. *)
Theorem normalizeTimeline_keeps_consistent_hints (tl : list TimelineEntry) :
  consistentFrom 0%Q tl -> Forall2 sameEntry (normalizeTimeline tl) tl.
Proof.
  intros Hc. unfold normalizeTimeline.
  apply (normalizeFrom_kept tl 0%Q 0%Q); [apply Qle_refl | apply Qle_refl | exact Hc].
Qed.

Lemma normalizeTimeline_keeps_consistent_hints_witness :
  consistentFrom 0%Q
    [mkTimelineEntry "line-0" "line-0" 0 2 "A" "";
     mkTimelineEntry "line-1" "line-1" (5 # 2) (33 # 10) "B" ""]
  /\ Forall2 sameEntry
       (normalizeTimeline
          [mkTimelineEntry "line-0" "line-0" 0 2 "A" "";
           mkTimelineEntry "line-1" "line-1" (5 # 2) (33 # 10) "B" ""])
       [mkTimelineEntry "line-0" "line-0" 0 2 "A" "";
        mkTimelineEntry "line-1" "line-1" (5 # 2) (33 # 10) "B" ""].
Proof.
  assert (H : consistentFrom 0%Q
                [mkTimelineEntry "line-0" "line-0" 0 2 "A" "";
                 mkTimelineEntry "line-1" "line-1" (5 # 2) (33 # 10) "B" ""])
    by (simpl; unfold MIN_IMAGE_DURATION; simpl; repeat split; lra).
  split; [exact H|].
  exact (normalizeTimeline_keeps_consistent_hints _ H).
Defined.

(** X6: the sweep is idempotent: a normalised timeline is left with the same
    starts and ends by a second sweep. *)
Theorem normalizeTimeline_idempotent (tl : list TimelineEntry) :
  Forall2 sameEntry (normalizeTimeline (normalizeTimeline tl)) (normalizeTimeline tl).
Proof.
  unfold normalizeTimeline.
  apply (normalizeFrom_kept _ 0%Q 0%Q); [apply Qle_refl | apply Qle_refl |].
  apply normalizeFrom_consistent.
Qed.

(** X7: the sweep only ever moves times later: no entry starts or ends
    earlier than its hint said, and its text and image are those of the
    input entry at the same position. *)
Theorem normalizeTimeline_only_delays (tl : list TimelineEntry) :
  Forall2 (fun out inp =>
             (startTime inp <= startTime out)%Q /\ (endTime inp <= endTime out)%Q
             /\ entryId out = entryId inp /\ scriptLineId out = scriptLineId inp
             /\ text out = text inp /\ image out = image inp)
          (normalizeTimeline tl) tl.
Proof. apply normalizeFrom_delays. Qed.

(** ** handleSync *)





(** ** The manifest *)

Lemma manifestEntryOf_ok l : wellFormedLine l -> manifestEntryOk (manifestEntryOf l).
Proof.
  unfold wellFormedLine, manifestEntryOk, manifestEntryOf. simpl.
  destruct (status l); intros H; try (destruct H as (_ & -> & -> & -> & _); now repeat split).
  - destruct H as (_ & -> & -> & -> ). now repeat split.
  - destruct H as (_ & -> & -> & -> ). now repeat split.
  - destruct H as (_ & -> & Hb & Ht & _). now repeat split.
  - destruct H as (_ & -> & -> & -> ). now repeat split.
Qed.

(** X17: the manifest built from the lines a run leaves has one record per
    script line in script order with that line's narration and prompt; a
    record of a completed line names the file derived from its narration and
    has a batch and a timestamp, any other record has an empty filename and
    neither. *)
Theorem generateManifest_after_run generateImageForLine now st session :
  Forall wellFormedLine (scriptLines st) ->
  map (fun e => (script_line e, pic_prompt e))
      (generateManifest (scriptLines (afterBatch generateImageForLine now st session)))
  = map (fun l => (spokenText l, imagePrompt l)) (scriptLines st)
  /\ Forall manifestEntryOk
            (generateManifest (scriptLines (afterBatch generateImageForLine now st session))).
Proof.
  intros Hw. rewrite afterBatch_scriptLines. split.
  - pose proof (processBatch_lineText generateImageForLine now st session) as H.
    apply (f_equal (map (fun x : string * string * string * string =>
                           (snd (fst x), snd x)))) in H.
    rewrite !map_map in H. unfold generateManifest. rewrite map_map. exact H.
  - unfold generateManifest. apply Forall_fmap.
    eapply Forall_impl; [apply processBatch_wellFormed; exact Hw|].
    intros l Hl. now apply manifestEntryOf_ok.
Qed.

(** ** Uploading a script *)

Lemma apply_actions_app a1 a2 sh :
  apply_actions (a1 ++ a2) sh = apply_actions a2 (apply_actions a1 sh).
Proof. unfold apply_actions. apply fold_left_app. Qed.

Lemma apply_actions_Core es sh :
  apply_actions (map Core es) sh
  = mkShell (apply_effects es (core sh)) (stage sh) (batchIdCounter sh)
            (isKeyValidating sh) (timeline sh) (isSyncing sh) (manifest sh).
Proof.
  revert sh; induction es as [|e es IH]; intros sh; [now destruct sh|].
  simpl. unfold apply_actions in *. simpl. rewrite IH. reflexivity.
Qed.

(** X18: an upload whose text has no non-blank line leaves lines, stage and
    dialog as they were, reporting "empty or invalid format" unless the text
    is empty, in which case nothing at all happens; any other upload installs
    the parsed lines, all pending, enters image generation and opens the key
    dialog without touching the error, the session or the timeline. *)
Theorem handleTxtUpload_outcomes (text : string) (sh : Shell) :
  (scriptRows text = [] ->
     scriptLines (core (apply_actions (handleTxtUpload text) sh)) = scriptLines (core sh)
     /\ stage (apply_actions (handleTxtUpload text) sh) = stage sh
     /\ showKeyModal (core (apply_actions (handleTxtUpload text) sh))
        = showKeyModal (core sh)
     /\ (text = ""%string -> apply_actions (handleTxtUpload text) sh = sh)
     /\ (text <> ""%string ->
         appError (core (apply_actions (handleTxtUpload text) sh))
         = Some "File appears empty or invalid format."%string))
  /\ (scriptRows text <> [] ->
        scriptLines (core (apply_actions (handleTxtUpload text) sh)) = parseScript text
        /\ Forall (fun l => status l = pending)
                  (scriptLines (core (apply_actions (handleTxtUpload text) sh)))
        /\ stage (apply_actions (handleTxtUpload text) sh) = IMAGE_GENERATION
        /\ showKeyModal (core (apply_actions (handleTxtUpload text) sh)) = true
        /\ appError (core (apply_actions (handleTxtUpload text) sh)) = appError (core sh)
        /\ apiKeySession (core (apply_actions (handleTxtUpload text) sh))
           = apiKeySession (core sh)
        /\ timeline (apply_actions (handleTxtUpload text) sh) = timeline sh).
Proof.
  unfold handleTxtUpload. rewrite length_parseScript.
  destruct (String.eqb text "") eqn:E.
  - apply String.eqb_eq in E. subst text. split; [|intros H; now contradiction H].
    intros _. repeat split; auto. intros H; now contradiction H.
  - apply String.eqb_neq in E. destruct (scriptRows text) as [|row rows] eqn:R.
    + split; [|intros H; now contradiction H]. intros _. simpl.
      repeat split; auto. intros ->. now contradiction E.
    + split; [discriminate|]. intros _. simpl. repeat split.
      apply Forall_lookup. intros i l Hl. rewrite parseScript_lookup in Hl.
      destruct (scriptRows text !! i) as [x|]; simpl in Hl; [|discriminate].
      injection Hl as <-. unfold parseLine. now destruct (Js.indexOf pipe x).
Qed.

(** ** Submitting a key *)

Lemma handleKeySubmit_rejected_actions gen now sh valid parsed :
  (valid = false \/ parsed = None \/ exists z, parsed = Some z /\ (z < 1)%Z) ->
  handleKeySubmit gen now sh valid parsed
  = [Core (SetError None); SetIsKeyValidating true; Core (AddLog "Testing API Key...");
     SetIsKeyValidating false;
     Core (SetError (Some (if valid then invalidLimitMessage else invalidKeyMessage)))].
Proof.
  unfold handleKeySubmit. intros [-> | [-> | (z & -> & Hz)]].
  - reflexivity.
  - now destruct valid.
  - destruct valid; [|reflexivity].
    assert ((z <? 1)%Z = true) as -> by now apply Z.ltb_lt. reflexivity.
Qed.

(** X19: a key that does not validate, or a limit that is not a number or is
    below 1, is refused with an error message: no session is created, the
    batch counter, the lines and the dialog stay as they were, and the image
    service is not called. *)
Theorem handleKeySubmit_rejects gen now sh valid parsed :
  (valid = false \/ parsed = None \/ exists z, parsed = Some z /\ (z < 1)%Z) ->
  apiKeySession (core (apply_actions (handleKeySubmit gen now sh valid parsed) sh))
  = apiKeySession (core sh)
  /\ scriptLines (core (apply_actions (handleKeySubmit gen now sh valid parsed) sh))
     = scriptLines (core sh)
  /\ showKeyModal (core (apply_actions (handleKeySubmit gen now sh valid parsed) sh))
     = showKeyModal (core sh)
  /\ batchIdCounter (apply_actions (handleKeySubmit gen now sh valid parsed) sh)
     = batchIdCounter sh
  /\ appError (core (apply_actions (handleKeySubmit gen now sh valid parsed) sh))
     = Some (if valid then invalidLimitMessage else invalidKeyMessage)
  /\ Forall (fun a => forall k i, a <> Core (GenerateImageForLine k i))
            (handleKeySubmit gen now sh valid parsed).
Proof.
  intros H. rewrite (handleKeySubmit_rejected_actions gen now sh valid parsed H).
  repeat split. repeat constructor; discriminate.
Qed.

Lemma handleKeySubmit_rejects_witness :
  apiKeySession (core (apply_actions
     (handleKeySubmit okService clock
        (mkShell (readyState (newSession "key-1" 2 1) fiveLines) IMAGE_GENERATION 1 false
                 [] false None) true (Some 0%Z))
     (mkShell (readyState (newSession "key-1" 2 1) fiveLines) IMAGE_GENERATION 1 false
              [] false None)))
  = Some (newSession "key-1" 2 1).
Proof.
  exact (proj1 (handleKeySubmit_rejects okService clock
                  (mkShell (readyState (newSession "key-1" 2 1) fiveLines)
                           IMAGE_GENERATION 1 false [] false None)
                  true (Some 0%Z)
                  (or_intror (or_intror (ex_intro _ 0%Z (conj eq_refl eq_refl)))))).
Defined.

(** X20: a valid key with a limit of at least 1 starts a new batch: the
    batch counter goes up by one, and when the handler is done the session
    in the state has the submitted key, the submitted limit, the new batch
    number, and a consumption counter that equals the number of images the
    run obtained and does not exceed the limit; the lines in the state are
    those the run produced. *)
Theorem handleKeySubmit_accepts gen now sh z :
  (1 <= z)%Z ->
  batchIdCounter (apply_actions (handleKeySubmit gen now sh true (Some z)) sh)
  = batchIdCounter sh + 1
  /\ scriptLines (core (apply_actions (handleKeySubmit gen now sh true (Some z)) sh))
     = lines (processBatch gen now (core sh)
                (newSession (tempKey (core sh)) (Z.to_nat z) (batchIdCounter sh + 1)))
  /\ exists s,
       apiKeySession (core (apply_actions (handleKeySubmit gen now sh true (Some z)) sh))
       = Some s
       /\ key s = tempKey (core sh)
       /\ limit s = Z.to_nat z /\ 1 <= limit s
       /\ sessionBatchId s = batchIdCounter sh + 1
       /\ used s <= limit s
       /\ used s
          = successes gen
              (calls (processBatch gen now (core sh)
                        (newSession (tempKey (core sh)) (Z.to_nat z)
                                    (batchIdCounter sh + 1)))).
Proof.
  intros Hz. unfold handleKeySubmit.
  assert ((z <? 1)%Z = false) as -> by (apply Z.ltb_ge; lia).
  fold (newSession (tempKey (core sh)) (Z.to_nat z) (batchIdCounter sh + 1)).
  set (s0 := newSession (tempKey (core sh)) (Z.to_nat z) (batchIdCounter sh + 1)).
  set (run := processBatch gen now (core sh) s0).
  rewrite !apply_actions_app, apply_actions_Core.
  cbn [batchIdCounter core]. split; [reflexivity|]. split.
  - apply processBatch_shown. reflexivity.
  - assert (U0 : used s0 <= limit s0) by (simpl; lia).
    destruct (processBatch_budgetInv gen now (core sh) s0 U0) as (_ & S0 & U & Lm).
    destruct (processBatch_session_fixed gen now (core sh) s0) as [K Bid].
    pose proof (processBatch_successes gen now (core sh) s0) as Su.
    fold run in S0, U, Lm, K, Bid, Su.
    exists (currentSession run).
    split; [|simpl in *; repeat split; try assumption; lia].
    rewrite <- S0. apply apiKeySession_after. reflexivity.
Qed.

Lemma handleKeySubmit_accepts_witness :
  (1 <= 2)%Z
  /\ batchIdCounter (apply_actions
       (handleKeySubmit okService clock
          (mkShell (readyState (newSession "key-1" 2 1) fiveLines) IMAGE_GENERATION 0 false
                   [] false None) true (Some 2%Z))
       (mkShell (readyState (newSession "key-1" 2 1) fiveLines) IMAGE_GENERATION 0 false
                [] false None))
     = 0 + 1.
Proof.
  split; [lia|].
  exact (proj1 (handleKeySubmit_accepts okService clock
                  (mkShell (readyState (newSession "key-1" 2 1) fiveLines)
                           IMAGE_GENERATION 0 false [] false None)
                  2%Z ltac:(lia))).
Defined.

(** ** Synchronising *)

(** X21: [handleSync] never changes the lines or the session; without an
    audio file it only reports the missing file; with audio but no session
    it only opens the key dialog; with both it stores the normalised
    timeline of the completed lines and the manifest of all lines, and moves
    on to rendering. *)
Theorem handleSync_outcomes (sh : Shell) (hasAudio : bool) (alignments : list Alignment) :
  scriptLines (core (apply_actions (handleSync sh hasAudio alignments) sh))
  = scriptLines (core sh)
  /\ apiKeySession (core (apply_actions (handleSync sh hasAudio alignments) sh))
     = apiKeySession (core sh)
  /\ (hasAudio = false ->
      timeline (apply_actions (handleSync sh hasAudio alignments) sh) = timeline sh
      /\ stage (apply_actions (handleSync sh hasAudio alignments) sh) = stage sh
      /\ showKeyModal (core (apply_actions (handleSync sh hasAudio alignments) sh))
         = showKeyModal (core sh)
      /\ appError (core (apply_actions (handleSync sh hasAudio alignments) sh))
         = Some "Please upload an audio file first."%string)
  /\ (hasAudio = true -> apiKeySession (core sh) = None ->
      timeline (apply_actions (handleSync sh hasAudio alignments) sh) = timeline sh
      /\ stage (apply_actions (handleSync sh hasAudio alignments) sh) = stage sh
      /\ showKeyModal (core (apply_actions (handleSync sh hasAudio alignments) sh)) = true)
  /\ (hasAudio = true -> is_Some (apiKeySession (core sh)) ->
      timeline (apply_actions (handleSync sh hasAudio alignments) sh)
      = syncTimeline alignments (scriptLines (core sh))
      /\ manifest (apply_actions (handleSync sh hasAudio alignments) sh)
         = Some (generateManifest (scriptLines (core sh)))
      /\ stage (apply_actions (handleSync sh hasAudio alignments) sh) = RENDERING
      /\ isSyncing (apply_actions (handleSync sh hasAudio alignments) sh) = false).
Proof.
  unfold handleSync.
  destruct hasAudio; simpl.
  - destruct (apiKeySession (core sh)) as [s|] eqn:E; simpl; rewrite ?E.
    + split; [reflexivity|]. split; [reflexivity|]. split; [discriminate|].
      split; [discriminate|]. intros _ _. repeat split.
    + split; [reflexivity|]. split; [reflexivity|]. split; [discriminate|].
      split; [intros _ _; repeat split|]. intros _ [x Hx]. discriminate.
  - split; [reflexivity|]. split; [reflexivity|]. split; [intros _; repeat split|].
    split; discriminate.
Qed.

(** ** The further properties on concrete runs *)

Lemma twoLines_wellFormed : Forall wellFormedLine twoLines.
Proof. repeat constructor. Qed.

Lemma processBatch_keeps_lines_well_formed_witness :
  Forall wellFormedLine (scriptLines (readyState (newSession "key-1" 1 1) twoLines))
  /\ Forall wellFormedLine
            (scriptLines (afterBatch flakyService clock
                                     (readyState (newSession "key-1" 1 1) twoLines)
                                     (newSession "key-1" 1 1))).
Proof.
  split; [exact twoLines_wellFormed|].
  exact (processBatch_keeps_lines_well_formed flakyService clock
           (readyState (newSession "key-1" 1 1) twoLines) (newSession "key-1" 1 1)
           twoLines_wellFormed).
Defined.

Lemma processBatch_stamps_completed_witness :
  exists l l',
    scriptLines (readyState (newSession "key-1" 1 1) twoLines) !! 1 = Some l
    /\ status l <> completed
    /\ scriptLines (afterBatch flakyService clock
                               (readyState (newSession "key-1" 1 1) twoLines)
                               (newSession "key-1" 1 1)) !! 1 = Some l'
    /\ status l' = completed
    /\ stamped flakyService clock 1 0 (calls budgetOneRun) l l'.
Proof.
  eexists. eexists.
  assert (H1 : scriptLines (readyState (newSession "key-1" 1 1) twoLines) !! 1
               = Some (parseLine 1 "Second line")) by reflexivity.
  assert (H2 : status (parseLine 1 "Second line") <> completed) by discriminate.
  assert (H3 : scriptLines (afterBatch flakyService clock
                                       (readyState (newSession "key-1" 1 1) twoLines)
                                       (newSession "key-1" 1 1)) !! 1
               = Some (markCompleted "iVBORw0KGgo=" 1 (clock 3)
                                     (markGenerating (parseLine 1 "Second line"))))
    by reflexivity.
  split; [exact H1|]. split; [exact H2|]. split; [exact H3|]. split; [reflexivity|].
  exact (processBatch_stamps_completed flakyService clock
           (readyState (newSession "key-1" 1 1) twoLines) (newSession "key-1" 1 1)
           1 _ _ H1 H2 H3 eq_refl).
Defined.

Lemma processBatch_asks_for_key_when_work_remains_witness :
  isProcessingBatch (readyState (newSession "key-1" 2 1) fiveLines) = false
  /\ showKeyModal (afterBatch okService clock
                              (readyState (newSession "key-1" 2 1) fiveLines)
                              (newSession "key-1" 2 1)) = true
  /\ tempKey (afterBatch okService clock
                         (readyState (newSession "key-1" 2 1) fiveLines)
                         (newSession "key-1" 2 1)) = ""%string.
Proof.
  split; [reflexivity|].
  destruct (processBatch_asks_for_key_when_work_remains okService clock
              (readyState (newSession "key-1" 2 1) fiveLines) (newSession "key-1" 2 1)
              eq_refl) as (H1 & H2 & _).
  - exists 2. eexists. split; [vm_compute; reflexivity | reflexivity].
  - split; [exact H1 | exact H2].
Defined.

Lemma processBatch_resumes_at_first_unfinished_witness :
  findIndex needsWork (lines budgetOneRun) = Some 0
  /\ callLines (effects (processBatch okService clock secondState
                                      (newSession "key-2" 3 2))) !! 0 = Some 0.
Proof.
  split; [reflexivity|].
  apply (processBatch_resumes_at_first_unfinished okService clock secondState
           (newSession "key-2" 3 2) 0); [reflexivity | reflexivity | simpl; lia].
Defined.

Lemma fiveLines_settled : settled fiveLines.
Proof. apply parseScript_settled. Qed.

Lemma dashboard_offers_one_way_forward_witness :
  settled (scriptLines (readyState (newSession "key-1" 2 1) fiveLines))
  /\ canResume IMAGE_GENERATION
               (afterBatch okService clock (readyState (newSession "key-1" 2 1) fiveLines)
                           (newSession "key-1" 2 1))
     = negb (canAdvanceToSync IMAGE_GENERATION
               (afterBatch okService clock (readyState (newSession "key-1" 2 1) fiveLines)
                           (newSession "key-1" 2 1))).
Proof.
  split; [exact fiveLines_settled|].
  exact (proj2 (dashboard_offers_one_way_forward okService clock
                  (readyState (newSession "key-1" 2 1) fiveLines) (newSession "key-1" 2 1)
                  fiveLines_settled eq_refl)).
Defined.

Lemma processBatch_completes_up_to_budget_witness :
  exists m,
    m = Nat.min (2 - 0) (countIf notCompleted (drop 0 fiveLines))
    /\ used (currentSession budgetTwoRun) = 0 + m
    /\ calls budgetTwoRun = m
    /\ countIf notCompleted
               (scriptLines (afterBatch okService clock
                                        (readyState (newSession "key-1" 2 1) fiveLines)
                                        (newSession "key-1" 2 1))) + m
       = countIf notCompleted fiveLines.
Proof.
  exact (processBatch_completes_up_to_budget okService clock
           (readyState (newSession "key-1" 2 1) fiveLines) (newSession "key-1" 2 1) 0
           (fun _ => eq_refl) eq_refl eq_refl).
Defined.

Lemma generateManifest_after_run_witness :
  Forall wellFormedLine (scriptLines (readyState (newSession "key-1" 1 1) twoLines))
  /\ map filename
         (generateManifest
            (scriptLines (afterBatch flakyService clock
                                     (readyState (newSession "key-1" 1 1) twoLines)
                                     (newSession "key-1" 1 1))))
     = [""%string; "second_line.png"%string]
  /\ Forall manifestEntryOk
            (generateManifest
               (scriptLines (afterBatch flakyService clock
                                        (readyState (newSession "key-1" 1 1) twoLines)
                                        (newSession "key-1" 1 1)))).
Proof.
  split; [exact twoLines_wellFormed|]. split; [reflexivity|].
  exact (proj2 (generateManifest_after_run flakyService clock
                  (readyState (newSession "key-1" 1 1) twoLines) (newSession "key-1" 1 1)
                  twoLines_wellFormed)).
Defined.
